(** * Counting and ranking: [coursework-1/main.py] and [lab4.py]

    A shallow embedding of the word counter ([Counter]) and of the purchase
    leaderboard ([Purchase], [parse_purchases], [total_spend_by_user],
    [top_users], [main]), of the maximum functions of [lab3.py] and of the
    greeting of [lab1.py], followed by the properties proved about them.

    Modelling conventions.
    - A Python [str] is a [string]; each [ascii] stands for one code point
      below 256, so [==] is [String.eqb] and [<] is the lexicographic order
      on codes, [String.ltb].
    - A Python [int] is a [Z].
    - A Python [float] is an IEEE 754 binary64 value, a [spec_float] operated
      on with the Standard Library's executable specification at precision
      53 and maximal exponent 1024.  The binary64 floats are the [spec_float]s
      that are [Float.valid]; NaN is one of them.
    - A [dict] is an association list in insertion order: assigning to an
      existing key keeps its position, a new key goes to the end.
    - A call that may raise returns a [result]; a method that mutates its
      object also returns the object as it is left, raised or not. *)

From Stdlib Require Import ZArith List Bool String Ascii Lia.
From Stdlib Require Import Sorted Permutation.
From Stdlib Require Import Floats.SpecFloat.
Import ListNotations.

Local Open Scope string_scope.
Local Open Scope Z_scope.

(** ** Exceptions and results *)

Inductive exn : Type :=
| ValueError (msg : string)
| IndexError (msg : string).

Inductive result (A : Type) : Type :=
| Ok (a : A)
| Raise (e : exn).

Arguments Ok {A} a.
Arguments Raise {A} e.

Definition bind {A B : Type} (r : result A) (f : A -> result B) : result B :=
  match r with
  | Ok a => f a
  | Raise e => Raise e
  end.

Notation "x <- r ;; k" := (bind r (fun x => k))
  (at level 61, r at next level, right associativity).

(** A method on a mutable object of type [S]: the outcome of the call and the
    object afterwards. *)
Definition method (S A : Type) : Type := S -> result A * S.

(** ** [str] *)

(** [c.isspace()] on code points below 256: tab to carriage return, the four
    separators 28 to 31, space, next line (133) and no-break space (160). *)
Definition isspace (c : ascii) : bool :=
  let n := N_of_ascii c in
  (((9 <=? n) && (n <=? 13)) || ((28 <=? n) && (n <=? 32)) ||
   (n =? 133) || (n =? 160))%N.

Fixpoint lstrip (s : string) : string :=
  match s with
  | EmptyString => EmptyString
  | String c s' => if isspace c then lstrip s' else s
  end.

Fixpoint rstrip (s : string) : string :=
  match s with
  | EmptyString => EmptyString
  | String c s' =>
      match rstrip s' with
      | EmptyString => if isspace c then EmptyString else String c EmptyString
      | r => String c r
      end
  end.

(** [s.strip()] *)
Definition strip (s : string) : string := lstrip (rstrip s).

(** Truth value of a string: [not s] is [negb (truthy s)]. *)
Definition truthy (s : string) : bool :=
  match s with
  | EmptyString => false
  | String _ _ => true
  end.

(** ** [list]: indexing, slicing, [sorted] *)

(** The position an index [i] denotes in a sequence of length [n], counting
    from the end when [i] is negative. *)
Definition position (n : nat) (i : Z) : option nat :=
  let j := if i <? 0 then i + Z.of_nat n else i in
  if (j <? 0) || (Z.of_nat n <=? j) then None else Some (Z.to_nat j).

(** The largest index, [sys.maxsize] on a 64-bit build. *)
Definition maxsize : Z := 9223372036854775807.

(** [l[i]]: an int that is no index at all is refused first, then an index
    out of range. *)
Definition getitem {A : Type} (l : list A) (i : Z) : result A :=
  if (i <? - maxsize - 1) || (maxsize <? i) then
    Raise (IndexError "cannot fit 'int' into an index-sized integer")
  else
    match position (List.length l) i with
    | None => Raise (IndexError "list index out of range")
    | Some j =>
        match nth_error l j with
        | Some x => Ok x
        | None => Raise (IndexError "list index out of range")
        end
    end.

(** The list [l] with [x] at position [j]. *)
Fixpoint replace_nth {A : Type} (l : list A) (j : nat) (x : A) : list A :=
  match l, j with
  | [], _ => []
  | _ :: l', O => x :: l'
  | y :: l', S j' => y :: replace_nth l' j' x
  end.

(** The list [l] once the object that [l[i]] denotes has become [x]. *)
Definition mutated {A : Type} (l : list A) (i : Z) (x : A) : list A :=
  match position (List.length l) i with
  | None => l
  | Some j => replace_nth l j x
  end.

(** [l[:stop]]: a negative [stop] counts from the end, and the bound is
    clamped to the length on both sides. *)
Definition slice_to {A : Type} (l : list A) (stop : Z) : list A :=
  let n := Z.of_nat (List.length l) in
  let stop' := if stop <? 0 then Z.max 0 (stop + n) else Z.min stop n in
  firstn (Z.to_nat stop') l.

(** [sorted(l, key=key)].  Python's sort is stable and compares keys with [<]
    only; it is modelled by a stable insertion sort.  Wherever [<] is a
    strict weak order on the keys, every stable sort returns this list; and
    a list in which no key is below the key before it is returned as it
    stands, by Python as by the model, whatever the order. *)
Section Sorted.
Context {A K : Type} (lt : K -> K -> bool) (key : A -> K).

Fixpoint insert (x : A) (l : list A) : list A :=
  match l with
  | [] => [x]
  | y :: l' => if lt (key y) (key x) then y :: insert x l' else x :: y :: l'
  end.

Definition sorted (l : list A) : list A := fold_right insert [] l.
End Sorted.

(** [max(l)] on a list of ints: the first element, replaced by each later
    element that is greater. *)
Definition py_max (l : list Z) : result Z :=
  match l with
  | [] => Raise (ValueError "max() arg is an empty sequence")
  | x :: xs => Ok (fold_left (fun m v => if v >? m then v else m) xs x)
  end.

(** ** [float] *)

Module Float.

Definition prec : Z := 53.
Definition emax : Z := 1024.

Definition t : Type := spec_float.

(** [x + y], [-x], [x < y], [x == y], [x <= y] *)
Definition add : t -> t -> t := SFadd prec emax.
Definition neg : t -> t := SFopp.
Definition lt : t -> t -> bool := SFltb.
Definition eq : t -> t -> bool := SFeqb.
Definition le : t -> t -> bool := SFleb.

(** [0.0] and [float("nan")] *)
Definition zero : t := S754_zero false.
Definition nan : t := S754_nan.

Definition is_nan (x : t) : bool :=
  match x with
  | S754_nan => true
  | _ => false
  end.

(** The float [m * 2^e], for literals that are exact in binary. *)
Definition dyadic (m e : Z) : t := binary_normalize prec emax m e false.

(** [x.as_integer_ratio()]: the fraction in lowest terms that a finite float
    stands for; infinities and NaN have none. *)
Definition as_integer_ratio (x : t) : option (Z * Z) :=
  match x with
  | S754_zero _ => Some (0, 1)
  | S754_finite s m e =>
      let n := if s then Zneg m else Zpos m in
      if 0 <=? e then Some (n * 2 ^ e, 1)
      else
        let d := 2 ^ (- e) in
        let g := Z.gcd n d in
        Some (n / g, d / g)
  | S754_infinity _ | S754_nan => None
  end.

(** The values a binary64 float can take. *)
Definition valid (x : t) : Prop := valid_binary prec emax x = true.

End Float.

(** ** Numbers as dict values

    [top_users] is annotated for floats and works as it is on the counter's
    ints: it uses unary minus, [<] and [==] only. *)
Class PyNum (V : Type) : Type := {
  num_neg : V -> V;
  num_lt : V -> V -> bool;
  num_eq : V -> V -> bool
}.

#[export] Instance int_num : PyNum Z :=
  {| num_neg := Z.opp; num_lt := Z.ltb; num_eq := Z.eqb |}.

#[export] Instance float_num : PyNum Float.t :=
  {| num_neg := Float.neg; num_lt := Float.lt; num_eq := Float.eq |}.

(** [a < b] on tuples [(number, str)]: the first components that are not
    [==] decide; when all are equal the tuples are equal and [<] is false. *)
Definition tuple_lt {V : Type} `{PyNum V} (a b : V * string) : bool :=
  if negb (num_eq (fst a) (fst b)) then num_lt (fst a) (fst b)
  else if negb (String.eqb (snd a) (snd b)) then String.ltb (snd a) (snd b)
  else false.

(** ** [dict] with [str] keys *)

Module Dict.
Section Dict.
Context {V : Type}.

Definition t : Type := list (string * V).

Definition empty : t := [].

(** [d.get(k, default)] *)
Fixpoint get (d : t) (k : string) (default : V) : V :=
  match d with
  | [] => default
  | (k', v) :: d' => if String.eqb k' k then v else get d' k default
  end.

(** [d[k] = v] *)
Fixpoint set (d : t) (k : string) (v : V) : t :=
  match d with
  | [] => [(k, v)]
  | (k', v') :: d' =>
      if String.eqb k' k then (k', v) :: d' else (k', v') :: set d' k v
  end.

Definition items (d : t) : list (string * V) := d.
Definition keys (d : t) : list string := map fst d.
Definition values (d : t) : list V := map snd d.

(** Truth value of a dict: [not d] is [is_empty d]. *)
Definition is_empty (d : t) : bool :=
  match d with
  | [] => true
  | _ :: _ => false
  end.

(** The keys of a dict are pairwise distinct. *)
Definition wf (d : t) : Prop := NoDup (keys d).
End Dict.
Arguments t V : clear implicits.
End Dict.

(** ** [coursework-1/main.py]: class [Counter] *)

Module Counter.

Record t : Type := mk { words : Dict.t Z }.

(** [Counter()] *)
Definition __init__ : t := mk Dict.empty.

(** [self.add(item, n)] *)
Definition add (item : string) (n : Z) : method t unit :=
  fun self =>
    if n <? 1 then
      (Raise (ValueError "Repetition count is less than 1"), self)
    else
      (Ok tt, mk (Dict.set (words self) item (Dict.get (words self) item 0 + n))).

(** [self.add(item)], the repetition count left to its default. *)
Definition add_default (item : string) : method t unit := add item 1.

(** [self.count(item)] *)
Definition count (self : t) (item : string) : Z :=
  Dict.get (words self) item 0.

(** The loop of [most_common]: the keys whose value is [highest], in the
    order of the dict. *)
Definition collect_highest (highest : Z) (d : Dict.t Z) : list string :=
  fold_left
    (fun highest_list kv =>
       if snd kv =? highest then (highest_list ++ [fst kv])%list
       else highest_list)
    (Dict.items d) [].

(** [self.most_common()] *)
Definition most_common (self : t) : result (string * Z) :=
  if Dict.is_empty (words self) then Raise (ValueError "Counter is empty")
  else
    highest <- py_max (Dict.values (words self)) ;;
    let highest_list := collect_highest highest (words self) in
    let highest_list := sorted String.ltb (fun k => k) highest_list in
    first <- getitem highest_list 0 ;;
    Ok (first, highest).

End Counter.

(** A run of [add] calls on one counter, as in the loop of [main]: the first
    call that raises ends the run. *)
Fixpoint add_all (calls : list (string * Z)) : method Counter.t unit :=
  fun self =>
    match calls with
    | [] => (Ok tt, self)
    | (item, n) :: rest =>
        match Counter.add item n self with
        | (Ok _, self') => add_all rest self'
        | (Raise e, self') => (Raise e, self')
        end
    end.

(** The sum of the amounts passed under [key] in a run of calls. *)
Fixpoint total_for (key : string) (calls : list (string * Z)) : Z :=
  match calls with
  | [] => 0
  | (item, n) :: rest =>
      (if String.eqb item key then n else 0) + total_for key rest
  end.

(** ** [lab4.py]: class [Purchase] *)

Module Purchase.

Record t : Type := mk { _user : string; _country : string; _amount : Float.t }.

(** [Purchase(user, country, amount)] *)
Definition __init__ (user country : string) (amount : Float.t) : result t :=
  if negb (truthy (strip user)) then
    Raise (ValueError "user must be non-empty")
  else if Float.lt amount Float.zero then
    Raise (ValueError "amount must be non-negative")
  else
    Ok (mk (strip user) (strip country) amount).

(** [self.is_in_country(country)] *)
Definition is_in_country (self : t) (country : string) : bool :=
  String.eqb (_country self) country.

(** [self.apply_fee(fee)] *)
Definition apply_fee (fee : Float.t) : method t unit :=
  fun self =>
    if Float.lt fee Float.zero then
      (Raise (ValueError "fee must be non-negative"), self)
    else
      (Ok tt, mk (_user self) (_country self) (Float.add (_amount self) fee)).

(** [self.user()] and [self.amount()] *)
Definition user (self : t) : string := _user self.
Definition amount (self : t) : Float.t := _amount self.

End Purchase.

(** ** [lab4.py]: the functions *)

(** A line of input after [line.split(",")] has yielded exactly three parts
    and [float] has converted the third: the text layer is not modelled. *)
Definition line : Type := (string * string * Float.t)%type.

(** [parse_purchases(lines)]: each part is stripped and a [Purchase] built;
    the first line whose construction raises ends the loop. *)
Fixpoint parse_purchases (lines : list line) : result (list Purchase.t) :=
  match lines with
  | [] => Ok []
  | (user, country, amount) :: rest =>
      purchase <- Purchase.__init__ (strip user) (strip country) amount ;;
      purchases <- parse_purchases rest ;;
      Ok (purchase :: purchases)
  end.

(** The body of the loop of [total_spend_by_user]. *)
Definition spend_step (country : string) (totals : Dict.t Float.t)
    (purchase : Purchase.t) : Dict.t Float.t :=
  if Purchase.is_in_country purchase country then
    let user := Purchase.user purchase in
    Dict.set totals user
      (Float.add (Dict.get totals user Float.zero) (Purchase.amount purchase))
  else totals.

(** [total_spend_by_user(purchases, country)] *)
Definition total_spend_by_user (purchases : list Purchase.t) (country : string)
    : Dict.t Float.t :=
  fold_left (spend_step country) purchases Dict.empty.

(** The sort key of [top_users]: [(-item[1], item[0])]. *)
Definition rank_key {V : Type} `{PyNum V} (item : string * V) : V * string :=
  (num_neg (snd item), fst item).

(** [top_users(totals, limit)] *)
Definition top_users {V : Type} `{PyNum V} (totals : Dict.t V) (limit : Z)
    : list (string * V) :=
  slice_to (sorted tuple_lt rank_key (Dict.items totals)) limit.

(** [purchases[i].apply_fee(fee)], the statement of [main], where [i] is 0:
    the list holds the object itself, so the list afterwards holds the
    purchase as the call left it.  The purchases of the list are distinct
    objects, as [parse_purchases] builds them. *)
Definition apply_fee_at (i : Z) (fee : Float.t) : method (list Purchase.t) unit :=
  fun purchases =>
    match getitem purchases i with
    | Raise e => (Raise e, purchases)
    | Ok purchase =>
        let (outcome, purchase') := Purchase.apply_fee fee purchase in
        (outcome, mutated purchases i purchase')
    end.

(** The records of [main]; every amount is exact in binary. *)
Definition raw_lines : list line :=
  [ ("alice", "UK", Float.dyadic 5 1);      (* 10.0 *)
    ("bob", "UK", Float.dyadic 7 (-1));     (* 3.5 *)
    ("alice", "UK", Float.dyadic 1 1);      (* 2.0 *)
    ("carla", "FR", Float.dyadic 25 2);     (* 100.0 *)
    ("bob", "UK", Float.dyadic 5 0) ].      (* 5.0 *)

(** Parse, then aggregate for one country: the pipeline of [main] and of the
    module's doctest, from records to the ledger. *)
Definition build_filtered_ledger (records : list line) (category : string)
    : result (Dict.t Float.t) :=
  purchases <- parse_purchases records ;;
  Ok (total_spend_by_user purchases category).

(** [main], up to the list [leaders] that it prints: the records are parsed,
    the fee is applied to [purchases[0]], the totals for [country] are ranked
    and cut at [limit]. *)
Definition leaders_of (lines : list line) (fee : Float.t) (country : string)
    (limit : Z) : result (list (string * Float.t)) :=
  purchases <- parse_purchases lines ;;
  let (outcome, purchases) := apply_fee_at 0 fee purchases in
  _ <- outcome ;;
  let totals := total_spend_by_user purchases country in
  Ok (top_users totals limit).

Definition main_leaders : result (list (string * Float.t)) :=
  leaders_of raw_lines (Float.dyadic 1 (-2)) "UK" 3.

(** ** [lab4.py]: the text layer of [parse_purchases] *)

(** [s.split(sep)] for a separator of one character: the parts between the
    separators, empty parts included; at least one part. *)
Fixpoint split_on (sep : ascii) (s : string) : list string :=
  match s with
  | EmptyString => [EmptyString]
  | String c s' =>
      if Ascii.eqb c sep then EmptyString :: split_on sep s'
      else
        match split_on sep s' with
        | [] => [String c EmptyString]
        | part :: parts => String c part :: parts
        end
  end.

Section TextLayer.

(** The builtin [float] on a [str]: the float the text denotes, or the
    [ValueError] it raises.  It is a parameter of the model. *)
Variable float : string -> result Float.t.

(** The body of the loop of [parse_purchases] on one line of text: split on
    commas, strip each part, unpack exactly three parts, convert the third,
    build the purchase.  The message of the unpacking error is cut before
    its counts. *)
Definition parse_line (line : string) : result Purchase.t :=
  match map strip (split_on "," line) with
  | [user; country; amount_str] =>
      amount <- float amount_str ;;
      Purchase.__init__ user country amount
  | [] | [_] | [_; _] => Raise (ValueError "not enough values to unpack")
  | _ => Raise (ValueError "too many values to unpack")
  end.

(** [parse_purchases(lines)] on lines of text. *)
Fixpoint parse_purchases_text (lines : list string) : result (list Purchase.t) :=
  match lines with
  | [] => Ok []
  | line :: rest =>
      purchase <- parse_line line ;;
      purchases <- parse_purchases_text rest ;;
      Ok (purchase :: purchases)
  end.

End TextLayer.

(** ** [coursework-1/main.py]: [main] *)

(** [c.lower()] on code points below 256: the letters A to Z, and the
    accented capitals 192 to 222 but for the multiplication sign 215, move
    up by 32. *)
Definition lower_char (c : ascii) : ascii :=
  let n := N_of_ascii c in
  if (((65 <=? n) && (n <=? 90)) ||
      ((192 <=? n) && (n <=? 222) && negb (n =? 215)))%N
  then ascii_of_N (n + 32) else c.

(** [s.lower()] *)
Fixpoint lower (s : string) : string :=
  match s with
  | EmptyString => EmptyString
  | String c s' => String (lower_char c) (lower s')
  end.

(** The word that starts at the head of [s], empty when [s] starts with
    whitespace, and the words after it. *)
Fixpoint split_from (s : string) : string * list string :=
  match s with
  | EmptyString => (EmptyString, [])
  | String c s' =>
      let (word, words) := split_from s' in
      if isspace c then
        (EmptyString, if truthy word then word :: words else words)
      else (String c word, words)
  end.

(** [s.split()]: the words between runs of whitespace, none of them empty. *)
Definition str_split (s : string) : list string :=
  let (word, words) := split_from s in
  if truthy word then word :: words else words.

(** [c in chars] *)
Fixpoint char_in (chars : string) (c : ascii) : bool :=
  match chars with
  | EmptyString => false
  | String c' chars' => Ascii.eqb c' c || char_in chars' c
  end.

Fixpoint lstrip_chars (chars s : string) : string :=
  match s with
  | EmptyString => EmptyString
  | String c s' => if char_in chars c then lstrip_chars chars s' else s
  end.

Fixpoint rstrip_chars (chars s : string) : string :=
  match s with
  | EmptyString => EmptyString
  | String c s' =>
      match rstrip_chars chars s' with
      | EmptyString =>
          if char_in chars c then EmptyString else String c EmptyString
      | r => String c r
      end
  end.

(** [s.strip(chars)] *)
Definition strip_chars (chars s : string) : string :=
  lstrip_chars chars (rstrip_chars chars s).

(** The loop of [main] on a text: each word of the lower-cased text, stripped
    of the punctuation [.,!?], is added once to a fresh counter. *)
Definition count_words : string -> result unit * Counter.t :=
  fun text =>
    add_all
      (map (fun word => (strip_chars ".,!?" word, 1)) (str_split (lower text)))
      Counter.__init__.

(** What [main] prints for a text: the counts of ["the"] and ["cat"], then
    the most common word or the exception that ends the run. *)
Definition coursework_main (text : string)
    : result (Z * Z * result (string * Z)) :=
  let (outcome, counter) := count_words text in
  _ <- outcome ;;
  Ok (Counter.count counter "the", Counter.count counter "cat",
      Counter.most_common counter).

(** ** [lab3.py] *)

Module Lab3.

(** [a > b] on floats *)
Definition gt (a b : Float.t) : bool :=
  match SFcompare a b with
  | Some Gt => true
  | _ => false
  end.

(** [max_2(a, b)] *)
Definition max_2 (a b : Float.t) : Float.t :=
  if gt a b then a
  else if gt b a then b
  else a.

(** [max_list(x)] *)
Definition max_list (x : list Float.t) : result Float.t :=
  match x with
  | [] => Raise (ValueError "List is empty")
  | x0 :: _ =>
      Ok (fold_left (fun largest i => if gt i largest then i else largest) x x0)
  end.

(** [max_variable], on the tuple of its arguments *)
Definition max_variable (args : list Float.t) : result Float.t :=
  match args with
  | [] => Raise (ValueError "No arguments provided")
  | _ :: _ => max_list args
  end.

End Lab3.

(** ** [lab1.py] *)

Module Lab1.

(** [c.upper()] on the letters a to z; the text it is applied to holds no
    other letters. *)
Definition upper_char (c : ascii) : ascii :=
  let n := N_of_ascii c in
  if ((97 <=? n) && (n <=? 122))%N then ascii_of_N (n - 32) else c.

Fixpoint upper (s : string) : string :=
  match s with
  | EmptyString => EmptyString
  | String c s' => String (upper_char c) (upper s')
  end.

(** The outcome of an expression or of a run: the string it gives or has
    written to standard output, or an [OverflowError] that nothing catches. *)
Inductive outcome : Type :=
| Done (s : string)
| OverflowError (msg : string).

Fixpoint repeat_nat (s : string) (n : nat) : string :=
  match n with
  | O => EmptyString
  | S n' => s ++ repeat_nat s n'
  end.

(** [s * n]: the count must fit an index, and so must the length of the
    result; a count below 1 gives the empty string. *)
Definition repeat (s : string) (n : Z) : outcome :=
  if (n <? - maxsize - 1) || (maxsize <? n) then
    OverflowError "cannot fit 'int' into an index-sized integer"
  else if n <? 1 then Done EmptyString
  else if maxsize / n <? Z.of_nat (String.length s) then
    OverflowError "repeated string is too long"
  else Done (repeat_nat s (Z.to_nat n)).

Definition newline : string := String (ascii_of_nat 10) EmptyString.


Definition text : string := "Hello, World!" ++ newline.

Section Main.

(** The builtin [int] on a [str]: the int the text denotes, or [None] when
    it raises [ValueError].  It is a parameter of the model. *)
Variable int : string -> option Z.


End Main.

End Lab1.

(** ** The vocabulary of the properties *)

(** [x] may stand before [y]: the key of [y] is not below the key of [x]. *)
Definition not_after {A K : Type} (lt : K -> K -> bool) (key : A -> K)
    (x y : A) : Prop :=
  lt (key y) (key x) = false.

(** A number is comparable when it equals itself: every int, and every float
    but NaN. *)
Definition comparable {V : Type} `{PyNum V} (a : V) : Prop := num_eq a a = true.

(** On comparable numbers [<] is a strict weak order, [==] is its
    equivalence and unary minus reverses it. *)
Class PyNumOrder (V : Type) `{PyNum V} : Prop := {
  num_neg_comparable : forall a, comparable a -> comparable (num_neg a);
  num_eq_spec : forall a b, comparable a -> comparable b ->
    num_eq a b = negb (num_lt a b) && negb (num_lt b a);
  num_lt_asym : forall a b, comparable a -> comparable b ->
    num_lt a b = true -> num_lt b a = false;
  num_lt_cotrans : forall a b c, comparable a -> comparable b -> comparable c ->
    num_lt a b = false -> num_lt b c = false -> num_lt a c = false;
  num_lt_neg : forall a b, comparable a -> comparable b ->
    num_lt (num_neg a) (num_neg b) = num_lt b a
}.

(** Entry [x] ranks before entry [y], or level with it: its value is greater,
    or the values are equal and its key is not the greater one. *)
Definition ranks_before {V : Type} `{PyNum V} (x y : string * V) : Prop :=
  num_lt (snd y) (snd x) = true \/
  (num_eq (snd x) (snd y) = true /\ String.leb (fst x) (fst y) = true).

(** Entry [x] ranks strictly before entry [y]. *)
Definition ranks_strictly_before {V : Type} `{PyNum V} (x y : string * V) : Prop :=
  num_lt (snd y) (snd x) = true \/
  (num_eq (snd x) (snd y) = true /\ String.ltb (fst x) (fst y) = true).

(** An entry whose value is comparable. *)
Definition comparable_entry {V : Type} `{PyNum V} (x : string * V) : Prop :=
  comparable (snd x).

(** A float other than NaN as a triple of integers whose lexicographic order
    is the order [Float.lt] tests: the class (infinities outermost, zeros of
    either sign in the middle), then exponent and mantissa, negated on the
    negative side. *)
Definition float_rank (x : Float.t) : Z * Z * Z :=
  match x with
  | S754_nan => (0, 0, 0)
  | S754_zero _ => (0, 0, 0)
  | S754_infinity true => (-2, 0, 0)
  | S754_infinity false => (2, 0, 0)
  | S754_finite true m e => (-1, - e, - Zpos m)
  | S754_finite false m e => (1, e, Zpos m)
  end.

(** The lexicographic order on triples of integers, and equality. *)
Definition lex_lt (a b : Z * Z * Z) : Prop :=
  let '(a1, a2, a3) := a in
  let '(b1, b2, b3) := b in
  a1 < b1 \/ (a1 = b1 /\ (a2 < b2 \/ (a2 = b2 /\ a3 < b3))).

Definition lex_eq (a b : Z * Z * Z) : Prop :=
  let '(a1, a2, a3) := a in
  let '(b1, b2, b3) := b in
  a1 = b1 /\ a2 = b2 /\ a3 = b3.

(** The user of the record is blank: [not user.strip()]. *)
Definition blank_user (r : line) : Prop :=
  let '(user, _, _) := r in truthy (strip user) = false.

(** The amount of the record is below zero: [amount < 0]. *)
Definition negative_amount (r : line) : Prop :=
  let '(_, _, amount) := r in Float.lt amount Float.zero = true.

(** The purchase built from the record passes [is_in_country(category)]. *)
Definition in_category (category : string) (r : line) : Prop :=
  let '(_, country, _) := r in strip country = category.

(** The call raised [ValueError], whatever the message. *)
Definition is_value_error {A : Type} (r : result A) : Prop :=
  exists msg, r = Raise (ValueError msg).

(** Two floats hold the same value: they are the same float, or they compare
    equal as the two zeros do. *)
Definition same_value (x y : Float.t) : Prop := x = y \/ Float.eq x y = true.

(** What rounding a positive value to a float [r] guarantees, where [E] is
    the target exponent and [q] the mantissa cut at [E]: the result is not
    negative and not NaN; it is zero only if [q] is; if finite it is a
    binary64 float with an exponent of at least [E], and with a mantissa of
    at least [q] when the exponent is [E]. *)
Definition round_spec (q E : Z) (r : spec_float) : Prop :=
  match r with
  | S754_zero s => s = false /\ q = 0
  | S754_infinity s => s = false
  | S754_nan => False
  | S754_finite s m2 e2 =>
      s = false /\ bounded Float.prec Float.emax m2 e2 = true /\
      E <= e2 /\ (e2 = E -> q <= Zpos m2)
  end.

(** What may be passed in as an amount or a fee: a binary64 float, and, when
    [numbers_only] is set, not NaN. *)
Definition input (numbers_only : bool) (v : Float.t) : Prop :=
  Float.valid v /\ (numbers_only = true -> Float.is_nan v = false).

(** The counters reachable from the empty counter by calls of [add], whether
    they are accepted or raise. *)
Inductive counter_reachable : Counter.t -> Prop :=
| counter_init : counter_reachable Counter.__init__
| counter_add item n self :
    counter_reachable self ->
    counter_reachable (snd (Counter.add item n self)).

(** The purchases reachable by construction followed by calls of
    [apply_fee], whether they are accepted or raise. *)
Inductive purchase_reachable (numbers_only : bool) : Purchase.t -> Prop :=
| purchase_init user country amount self :
    input numbers_only amount ->
    Purchase.__init__ user country amount = Ok self ->
    purchase_reachable numbers_only self
| purchase_fee fee self :
    input numbers_only fee ->
    purchase_reachable numbers_only self ->
    purchase_reachable numbers_only (snd (Purchase.apply_fee fee self)).

(** The ledgers reachable from the empty ledger by the loop of
    [total_spend_by_user] over reachable purchases. *)
Inductive ledger_reachable (numbers_only : bool) (country : string)
    : Dict.t Float.t -> Prop :=
| ledger_empty : ledger_reachable numbers_only country Dict.empty
| ledger_step totals purchase :
    ledger_reachable numbers_only country totals ->
    purchase_reachable numbers_only purchase ->
    ledger_reachable numbers_only country (spend_step country totals purchase).

(** The invariant of a stored float. *)
Definition stored (numbers_only : bool) (v : Float.t) : Prop :=
  input numbers_only v /\ Float.lt v Float.zero = false.

(** ** The vocabulary of the further properties *)

(** The sum of the values of a dict of ints. *)
Definition sum_values (d : Dict.t Z) : Z := fold_right Z.add 0 (Dict.values d).

(** [s.count(c)]: the number of occurrences of the character [c] in [s]. *)
Fixpoint count_char (c : ascii) (s : string) : nat :=
  match s with
  | EmptyString => O
  | String c' s' => (if Ascii.eqb c' c then 1 else 0) + count_char c s'
  end.

(** The text holds the fields of the record: it splits on commas into the
    user, the country and a third part that [float] converts, once stripped,
    to the amount. *)
Definition fields (float : string -> result Float.t) (text : string)
    (record : line) : Prop :=
  let '(user, country, amount) := record in
  exists amount_str,
    split_on "," text = [user; country; amount_str] /\
    float (strip amount_str) = Ok amount.


(** One round of the loop of [Lab3.max_list]. *)
Definition max_step (largest i : Float.t) : Float.t :=
  if Lab3.gt i largest then i else largest.

(** * Properties *)

(** ** The doctests of the sources, run on the model *)

Example counter_doctests :
  Counter.words Counter.__init__ = [] /\
  Counter.count
    (snd (Counter.add "hello" 3 (snd (Counter.add_default "hello" Counter.__init__))))
    "hello" = 4 /\
  Counter.count (snd (Counter.add "hello" 2 Counter.__init__)) "hello" = 2 /\
  Counter.count (snd (Counter.add "hello" 2 Counter.__init__)) "world" = 0 /\
  Counter.most_common
    (snd (add_all [("the", 3); ("cat", 3)] Counter.__init__)) = Ok ("cat", 3).
Proof. repeat split. Qed.

(** The words of [main] in [coursework-1/main.py], lower-cased, split and
    stripped of punctuation. *)
Example counter_main :
  let counter :=
    snd (add_all
           (map (fun word => (word, 1))
              ["the"; "cat"; "in"; "the"; "hat"; "sat"; "on"; "the"; "cat";
               "poor"; "cat"])
           Counter.__init__) in
  Counter.count counter "the" = 3 /\
  Counter.count counter "cat" = 3 /\
  Counter.most_common counter = Ok ("cat", 3).
Proof. repeat split. Qed.

Example purchase_doctests :
  (* 10.0 and 0.25 make 10.25 *)
  Purchase.__init__ "alice" "UK" (Float.dyadic 5 1) =
    Ok (Purchase.mk "alice" "UK" (Float.dyadic 5 1)) /\
  Purchase.is_in_country (Purchase.mk "alice" "UK" (Float.dyadic 5 1)) "UK" = true /\
  Purchase.is_in_country (Purchase.mk "alice" "UK" (Float.dyadic 5 1)) "FR" = false /\
  Purchase.amount
    (snd (Purchase.apply_fee (Float.dyadic 1 (-2))
            (Purchase.mk "alice" "UK" (Float.dyadic 5 1)))) =
    Float.dyadic 41 (-2).
Proof. repeat split; vm_compute; reflexivity. Qed.

Example lab4_doctests :
  (* alice 10.0 and 2.0 in the UK, bob 5.0 in France: alice 12.0 *)
  build_filtered_ledger
    [("alice", "UK", Float.dyadic 5 1); ("alice", "UK", Float.dyadic 1 1);
     ("bob", "FR", Float.dyadic 5 0)] "UK" =
    Ok [("alice", Float.dyadic 3 2)] /\
  (* alice 12.0, bob 8.5 *)
  top_users [("alice", Float.dyadic 3 2); ("bob", Float.dyadic 17 (-1))] 1 =
    [("alice", Float.dyadic 3 2)] /\
  top_users [("alice", Float.dyadic 3 2); ("bob", Float.dyadic 17 (-1))] 2 =
    [("alice", Float.dyadic 3 2); ("bob", Float.dyadic 17 (-1))].
Proof. repeat split; vm_compute; reflexivity. Qed.

(** ** Dictionaries *)

Lemma get_set_same {V} (d : Dict.t V) k v dflt :
  Dict.get (Dict.set d k v) k dflt = v.
Proof.
  induction d as [|[k' v'] d IH]; simpl.
  - now rewrite String.eqb_refl.
  - destruct (String.eqb k' k) eqn:E; simpl; rewrite E; auto.
Qed.

Lemma get_set_other {V} (d : Dict.t V) k k' v dflt :
  k <> k' -> Dict.get (Dict.set d k v) k' dflt = Dict.get d k' dflt.
Proof.
  intros Hne. induction d as [|[k0 v0] d IH]; simpl.
  - apply String.eqb_neq in Hne. now rewrite Hne.
  - destruct (String.eqb k0 k) eqn:E; simpl.
    + apply String.eqb_eq in E. subst k0.
      apply String.eqb_neq in Hne. now rewrite Hne.
    + now rewrite IH.
Qed.

Lemma keys_set {V} (d : Dict.t V) k v :
  Dict.keys (Dict.set d k v) =
  if existsb (String.eqb k) (Dict.keys d) then Dict.keys d
  else (Dict.keys d ++ [k])%list.
Proof.
  induction d as [|[k' v'] d IH]; simpl; auto.
  rewrite (String.eqb_sym k k').
  destruct (String.eqb k' k) eqn:E; simpl; auto.
  unfold Dict.keys in *. rewrite IH.
  now destruct (existsb _ _).
Qed.

Lemma wf_set {V} (d : Dict.t V) k v : Dict.wf d -> Dict.wf (Dict.set d k v).
Proof.
  unfold Dict.wf. rewrite keys_set.
  destruct (existsb (String.eqb k) (Dict.keys d)) eqn:E; auto.
  intros Hnd. apply NoDup_app; auto.
  - repeat constructor. simpl. tauto.
  - intros x Hin [Hx|[]]. subst x.
    assert (existsb (String.eqb k) (Dict.keys d) = true); [|congruence].
    apply existsb_exists. exists k. split; auto. apply String.eqb_refl.
Qed.

(** ** The counter *)

Lemma add_ok item n self :
  1 <= n ->
  Counter.add item n self =
  (Ok tt, Counter.mk (Dict.set (Counter.words self) item
                        (Counter.count self item + n))).
Proof.
  intros Hn. unfold Counter.add, Counter.count.
  destruct (n <? 1) eqn:E; auto. apply Z.ltb_lt in E. lia.
Qed.

Lemma count_add item n self key :
  1 <= n ->
  Counter.count (snd (Counter.add item n self)) key =
  Counter.count self key + (if String.eqb item key then n else 0).
Proof.
  intros Hn. rewrite add_ok by assumption. unfold Counter.count. simpl.
  destruct (String.eqb item key) eqn:E.
  - apply String.eqb_eq in E. subst. now rewrite get_set_same.
  - apply String.eqb_neq in E. rewrite get_set_other by assumption. lia.
Qed.

Lemma add_all_ok calls : forall self,
  Forall (fun c => 1 <= snd c) calls ->
  fst (add_all calls self) = Ok tt /\
  forall key,
    Counter.count (snd (add_all calls self)) key =
    Counter.count self key + total_for key calls.
Proof.
  induction calls as [|[item n] rest IH]; intros self Hall; simpl.
  - split; auto. intros. lia.
  - inversion Hall as [|? ? Hn Hrest]; subst. simpl in Hn.
    pose proof (count_add item n self) as Hc.
    rewrite add_ok in * by assumption. simpl in Hc.
    match goal with |- context [add_all rest ?s] =>
      destruct (IH s Hrest) as [Hok Hcount] end.
    split; auto.
    intros key. rewrite Hcount, Hc by assumption. lia.
Qed.

Lemma total_for_absent key calls :
  ~ In key (map fst calls) -> total_for key calls = 0.
Proof.
  induction calls as [|[item n] rest IH]; simpl; auto.
  intros Hnin. destruct (String.eqb item key) eqn:E.
  - apply String.eqb_eq in E. tauto.
  - rewrite IH; tauto.
Qed.

(** C2. After any finite run of [Counter.add] calls with amounts of at least
    1 on a fresh counter, no call has raised, [Counter.count] of a key is the
    sum of the amounts added under that key, and it is 0 for a key that was
    never added. *)
Theorem C2_count_is_sum (calls : list (string * Z)) :
  Forall (fun c => 1 <= snd c) calls ->
  fst (add_all calls Counter.__init__) = Ok tt /\
  (forall key,
     Counter.count (snd (add_all calls Counter.__init__)) key = total_for key calls) /\
  (forall key,
     ~ In key (map fst calls) ->
     Counter.count (snd (add_all calls Counter.__init__)) key = 0).
Proof.
  intros Hall. destruct (add_all_ok calls Counter.__init__ Hall) as [Hok Hcount].
  split; [assumption|]. split.
  - intros key. rewrite Hcount. reflexivity.
  - intros key Hnin. rewrite Hcount, total_for_absent by assumption. reflexivity.
Qed.

Lemma C2_count_is_sum_witness :
  Forall (fun c => 1 <= snd c) [("the", 1); ("cat", 2); ("the", 3)] /\
  Counter.count (snd (add_all [("the", 1); ("cat", 2); ("the", 3)] Counter.__init__)) "the" = 4.
Proof.
  assert (H : Forall (fun c : string * Z => 1 <= snd c)
                [("the", 1); ("cat", 2); ("the", 3)]).
  { repeat constructor; simpl; lia. }
  split; [exact H|].
  exact (proj1 (proj2 (C2_count_is_sum _ H)) "the").
Defined.

(** C5. [Counter.add] with an amount below 1 raises [ValueError] and leaves
    the counter, its mapping included, exactly as it was. *)
Theorem C5_add_rejects_atomically (self : Counter.t) (item : string) (n : Z) :
  n < 1 ->
  exists msg,
    fst (Counter.add item n self) = Raise (ValueError msg) /\
    snd (Counter.add item n self) = self /\
    Counter.words (snd (Counter.add item n self)) = Counter.words self.
Proof.
  intros Hn. unfold Counter.add.
  apply Z.ltb_lt in Hn. rewrite Hn. simpl. eauto.
Qed.

Lemma C5_add_rejects_atomically_witness :
  0 < 1 /\
  exists msg,
    fst (Counter.add "cat" 0 (Counter.mk [("cat", 3)])) = Raise (ValueError msg) /\
    snd (Counter.add "cat" 0 (Counter.mk [("cat", 3)])) = Counter.mk [("cat", 3)] /\
    Counter.words (snd (Counter.add "cat" 0 (Counter.mk [("cat", 3)]))) = [("cat", 3)].
Proof.
  split; [lia|].
  apply (C5_add_rejects_atomically (Counter.mk [("cat", 3)]) "cat" 0). lia.
Defined.

(** ** The order on strings *)

Lemma ascii_compare_lt a b :
  Ascii.compare a b = Lt <-> (N_of_ascii a < N_of_ascii b)%N.
Proof. unfold Ascii.compare. apply N.compare_lt_iff. Qed.

Lemma ascii_compare_eq a b : Ascii.compare a b = Eq <-> a = b.
Proof.
  split.
  - apply Ascii.compare_eq_iff.
  - intros ->. unfold Ascii.compare. apply N.compare_refl.
Qed.

Lemma str_compare_refl s : String.compare s s = Eq.
Proof.
  induction s as [|c s IH]; simpl; auto.
  now rewrite (proj2 (ascii_compare_eq c c) eq_refl).
Qed.

Lemma str_compare_trans a : forall b c,
  String.compare a b = Lt -> String.compare b c = Lt -> String.compare a c = Lt.
Proof.
  induction a as [|x a IH]; intros [|y b] [|z c]; simpl; try discriminate; auto.
  destruct (Ascii.compare x y) eqn:Exy; try discriminate;
    destruct (Ascii.compare y z) eqn:Eyz; try discriminate; intros Hab Hbc.
  - apply ascii_compare_eq in Exy. apply ascii_compare_eq in Eyz. subst.
    rewrite (proj2 (ascii_compare_eq z z) eq_refl). eauto.
  - apply ascii_compare_eq in Exy. subst. now rewrite Eyz.
  - apply ascii_compare_eq in Eyz. subst. now rewrite Exy.
  - apply ascii_compare_lt in Exy. apply ascii_compare_lt in Eyz.
    assert (Hxz : Ascii.compare x z = Lt).
    { apply ascii_compare_lt. eapply N.lt_trans; eassumption. }
    now rewrite Hxz.
Qed.

Lemma str_ltb_lt a b : String.ltb a b = true <-> String.compare a b = Lt.
Proof. unfold String.ltb. destruct (String.compare a b); intuition discriminate. Qed.

Lemma str_ltb_irrefl a : String.ltb a a = false.
Proof. unfold String.ltb. now rewrite str_compare_refl. Qed.

Lemma str_ltb_trans a b c :
  String.ltb a b = true -> String.ltb b c = true -> String.ltb a c = true.
Proof. rewrite !str_ltb_lt. apply str_compare_trans. Qed.

Lemma str_ltb_asym a b : String.ltb a b = true -> String.ltb b a = false.
Proof.
  unfold String.ltb. rewrite (String.compare_antisym b a).
  now destruct (String.compare a b).
Qed.

Lemma str_ltb_leb a b : String.ltb b a = negb (String.leb a b).
Proof.
  unfold String.ltb, String.leb. rewrite (String.compare_antisym b a).
  now destruct (String.compare a b).
Qed.

Lemma str_leb_refl a : String.leb a a = true.
Proof. unfold String.leb. now rewrite str_compare_refl. Qed.

Lemma str_leb_ltb_or_eq a b :
  String.leb a b = true <-> String.ltb a b = true \/ a = b.
Proof.
  unfold String.leb, String.ltb. split.
  - destruct (String.compare a b) eqn:E; auto; try discriminate.
    apply String.compare_eq_iff in E. auto.
  - intros [H| ->]; [|now rewrite str_compare_refl].
    now destruct (String.compare a b).
Qed.

Lemma str_leb_trans a b c :
  String.leb a b = true -> String.leb b c = true -> String.leb a c = true.
Proof.
  rewrite !str_leb_ltb_or_eq. intros [Hab| ->] [Hbc| ->]; auto.
  left. eapply str_ltb_trans; eassumption.
Qed.

(** ** Indexing and slicing *)

Lemma getitem_0 {A} (l : list A) :
  getitem l 0 =
  match l with
  | [] => Raise (IndexError "list index out of range")
  | x :: _ => Ok x
  end.
Proof.
  unfold getitem, position. destruct l as [|x l]; simpl; auto.
Qed.

Lemma slice_to_nonneg {A} (l : list A) (stop : Z) :
  0 <= stop -> slice_to l stop = firstn (Z.to_nat stop) l.
Proof.
  intros H. unfold slice_to.
  destruct (stop <? 0) eqn:E; [apply Z.ltb_lt in E; lia|].
  destruct (Z.le_ge_cases stop (Z.of_nat (List.length l))) as [Hle|Hge].
  - now rewrite Z.min_l.
  - rewrite Z.min_r, Nat2Z.id by assumption.
    rewrite !firstn_all2; auto; lia.
Qed.

Lemma slice_to_neg {A} (l : list A) (stop : Z) :
  stop < 0 ->
  slice_to l stop = firstn (List.length l - Z.to_nat (- stop)) l.
Proof.
  intros H. unfold slice_to.
  apply Z.ltb_lt in H. rewrite H. apply Z.ltb_lt in H.
  f_equal. lia.
Qed.

Lemma slice_to_length {A} (l : list A) (stop : Z) :
  Z.of_nat (List.length (slice_to l stop)) =
  if stop <? 0 then Z.max 0 (Z.of_nat (List.length l) + stop)
  else Z.min stop (Z.of_nat (List.length l)).
Proof.
  unfold slice_to. rewrite length_firstn.
  destruct (stop <? 0) eqn:E; [apply Z.ltb_lt in E | apply Z.ltb_ge in E]; lia.
Qed.

(** ** [sorted] returns a sorted permutation *)

Section SortedFacts.
Context {A K : Type} (lt : K -> K -> bool) (key : A -> K).

(** The elements on which [<] behaves as a strict weak order. *)
Variable P : A -> Prop.

Hypothesis lt_asym : forall x y,
  P x -> P y -> lt (key x) (key y) = true -> lt (key y) (key x) = false.

Hypothesis not_after_trans : forall x y z,
  P x -> P y -> P z ->
  not_after lt key x y -> not_after lt key y z -> not_after lt key x z.

Lemma insert_perm x l : Permutation (insert lt key x l) (x :: l).
Proof.
  induction l as [|y l IH]; simpl; auto.
  destruct (lt (key y) (key x)); auto.
  rewrite IH. apply perm_swap.
Qed.

Lemma sorted_perm l : Permutation (sorted lt key l) l.
Proof.
  induction l as [|x l IH]; simpl; auto.
  rewrite insert_perm. now constructor.
Qed.

Lemma sorted_length l : List.length (sorted lt key l) = List.length l.
Proof. apply Permutation_length, sorted_perm. Qed.

Lemma insert_sorted x l :
  P x -> Forall P l ->
  StronglySorted (not_after lt key) l ->
  StronglySorted (not_after lt key) (insert lt key x l).
Proof.
  intros Px. induction l as [|y l IH]; intros HP Hs; simpl.
  - repeat constructor.
  - inversion HP as [|? ? Py HPl]; subst.
    inversion Hs as [|? ? Hsl Hy]; subst.
    destruct (lt (key y) (key x)) eqn:E.
    + constructor; auto.
      apply (Permutation_Forall (Permutation_sym (insert_perm x l))).
      constructor; auto. unfold not_after. auto.
    + constructor; auto. constructor; auto.
      rewrite Forall_forall in *. intros z Hz.
      apply (not_after_trans x y z); auto.
Qed.

Lemma sorted_sorted l :
  Forall P l -> StronglySorted (not_after lt key) (sorted lt key l).
Proof.
  induction l as [|x l IH]; intros HP; simpl.
  - constructor.
  - inversion HP; subst. apply insert_sorted; auto.
    apply (Permutation_Forall (Permutation_sym (sorted_perm l))). assumption.
Qed.

(** A list that [<] finds in order already, each key not below the key before
    it, is returned as it stands. *)
Lemma sorted_run l : Sorted (not_after lt key) l -> sorted lt key l = l.
Proof.
  induction 1 as [|x l Hs IH Hhd]; simpl; auto.
  rewrite IH. destruct Hhd as [|y l' Hxy]; simpl; auto.
  unfold not_after in Hxy. now rewrite Hxy.
Qed.

End SortedFacts.

Lemma StronglySorted_app_inv {A} (R : A -> A -> Prop) l1 l2 :
  StronglySorted R (l1 ++ l2) ->
  StronglySorted R l1 /\ StronglySorted R l2 /\
  Forall (fun x => Forall (R x) l2) l1.
Proof.
  induction l1 as [|x l1 IH]; simpl; intros Hs.
  - repeat split; auto. constructor.
  - inversion Hs as [|? ? Hs' Hx]; subst.
    destruct (IH Hs') as (H1 & H2 & H3).
    apply Forall_app in Hx. destruct Hx as [Hx1 Hx2].
    repeat split; auto; constructor; auto.
Qed.

(** ** Numbers that can be ranked *)

#[export] Instance int_order : PyNumOrder Z.
Proof.
  split; unfold comparable; simpl.
  - intros a _. apply Z.eqb_refl.
  - intros a b _ _.
    destruct (Z.eqb_spec a b), (Z.ltb_spec a b), (Z.ltb_spec b a);
      simpl; auto; lia.
  - intros a b _ _ Hab. apply Z.ltb_lt in Hab. apply Z.ltb_ge. lia.
  - intros a b c _ _ _ Hab Hbc. apply Z.ltb_ge in Hab, Hbc. apply Z.ltb_ge. lia.
  - intros a b _ _.
    destruct (Z.ltb_spec (- a) (- b)), (Z.ltb_spec b a); auto; lia.
Qed.

Section Ranking.
Context {V : Type} `{PyNumOrder V}.

Lemma num_eq_sym (a b : V) :
  comparable a -> comparable b -> num_eq a b = num_eq b a.
Proof.
  intros Ha Hb. rewrite !num_eq_spec by assumption. apply andb_comm.
Qed.

Lemma num_eq_neg (a b : V) :
  comparable a -> comparable b -> num_eq (num_neg a) (num_neg b) = num_eq a b.
Proof.
  intros Ha Hb.
  rewrite (num_eq_spec (num_neg a)), (num_eq_spec a)
    by auto using num_neg_comparable.
  rewrite !num_lt_neg by assumption. apply andb_comm.
Qed.

Lemma num_lt_trans (a b c : V) :
  comparable a -> comparable b -> comparable c ->
  num_lt a b = true -> num_lt b c = true -> num_lt a c = true.
Proof.
  intros Ha Hb Hc Hab Hbc.
  destruct (num_lt a c) eqn:Hac; auto.
  pose proof (num_lt_asym a b Ha Hb Hab) as Hba.
  pose proof (num_lt_cotrans b a c Hb Ha Hc Hba Hac). congruence.
Qed.

Lemma tuple_lt_rank_key (x y : string * V) :
  comparable_entry x -> comparable_entry y ->
  tuple_lt (rank_key x) (rank_key y) =
  num_lt (snd y) (snd x) ||
  (num_eq (snd x) (snd y) && String.ltb (fst x) (fst y)).
Proof.
  unfold comparable_entry, tuple_lt, rank_key. simpl. intros Hx Hy.
  rewrite num_eq_neg, num_lt_neg by assumption.
  pose proof (num_eq_spec (snd x) (snd y) Hx Hy) as He.
  destruct (num_eq (snd x) (snd y)); simpl.
  - symmetry in He. apply andb_true_iff in He. destruct He as [_ He].
    apply negb_true_iff in He. rewrite He. simpl.
    destruct (String.eqb_spec (fst x) (fst y)) as [->|]; simpl; auto.
    now rewrite str_ltb_irrefl.
  - now rewrite orb_false_r.
Qed.

Lemma not_after_ranks_before (x y : string * V) :
  comparable_entry x -> comparable_entry y ->
  not_after tuple_lt rank_key x y <-> ranks_before x y.
Proof.
  intros Hx Hy. unfold not_after, ranks_before.
  rewrite tuple_lt_rank_key by assumption.
  rewrite (num_eq_sym (snd y) (snd x)) by assumption.
  pose proof (num_eq_spec (snd x) (snd y) Hx Hy) as He.
  pose proof (num_lt_asym (snd x) (snd y) Hx Hy) as Ha.
  rewrite (str_ltb_leb (fst x) (fst y)).
  destruct (num_lt (snd x) (snd y)), (num_lt (snd y) (snd x)),
    (num_eq (snd x) (snd y)), (String.leb (fst x) (fst y));
    simpl in *; try discriminate; try (specialize (Ha eq_refl); discriminate);
    intuition discriminate.
Qed.

Lemma ranks_before_trans (x y z : string * V) :
  comparable_entry x -> comparable_entry y -> comparable_entry z ->
  ranks_before x y -> ranks_before y z -> ranks_before x z.
Proof.
  unfold comparable_entry, ranks_before. intros Hx Hy Hz Hxy Hyz.
  assert (Heq : forall a b : V, comparable a -> comparable b ->
            num_eq a b = true -> num_lt a b = false /\ num_lt b a = false).
  { intros a b Ha Hb E. rewrite num_eq_spec in E by assumption.
    apply andb_true_iff in E. now rewrite !negb_true_iff in E. }
  destruct Hxy as [Hxy|[Hxy Kxy]], Hyz as [Hyz|[Hyz Kyz]].
  - left. eapply num_lt_trans with (b := snd y); eassumption.
  - left. destruct (Heq _ _ Hy Hz Hyz) as [Hyz1 Hyz2].
    destruct (num_lt (snd z) (snd x)) eqn:E; auto.
    pose proof (num_lt_cotrans _ _ _ Hy Hz Hx Hyz1 E). congruence.
  - left. destruct (Heq _ _ Hx Hy Hxy) as [Hxy1 Hxy2].
    destruct (num_lt (snd z) (snd x)) eqn:E; auto.
    pose proof (num_lt_cotrans _ _ _ Hz Hx Hy E Hxy1). congruence.
  - right. split; [|eapply str_leb_trans; eassumption].
    destruct (Heq _ _ Hx Hy Hxy) as [Hxy1 Hxy2].
    destruct (Heq _ _ Hy Hz Hyz) as [Hyz1 Hyz2].
    rewrite num_eq_spec by assumption.
    rewrite (num_lt_cotrans _ _ _ Hx Hy Hz Hxy1 Hyz1).
    now rewrite (num_lt_cotrans _ _ _ Hz Hy Hx Hyz2 Hxy2).
Qed.

Lemma rank_lt_asym (x y : string * V) :
  comparable_entry x -> comparable_entry y ->
  tuple_lt (rank_key x) (rank_key y) = true ->
  tuple_lt (rank_key y) (rank_key x) = false.
Proof.
  intros Hx Hy. rewrite !tuple_lt_rank_key by assumption.
  unfold comparable_entry in *.
  rewrite (num_eq_sym (snd y) (snd x)) by assumption.
  pose proof (num_eq_spec (snd x) (snd y) Hx Hy) as He.
  pose proof (num_lt_asym (snd x) (snd y) Hx Hy) as Ha.
  pose proof (str_ltb_asym (fst x) (fst y)) as Hs.
  destruct (num_lt (snd x) (snd y)), (num_lt (snd y) (snd x)),
    (num_eq (snd x) (snd y)), (String.ltb (fst x) (fst y));
    simpl in *; try discriminate; auto.
Qed.

Lemma rank_not_after_trans (x y z : string * V) :
  comparable_entry x -> comparable_entry y -> comparable_entry z ->
  not_after tuple_lt rank_key x y -> not_after tuple_lt rank_key y z ->
  not_after tuple_lt rank_key x z.
Proof.
  intros Hx Hy Hz. rewrite !not_after_ranks_before by assumption.
  now apply ranks_before_trans.
Qed.

(** The full ranking: all entries, best first. *)
Lemma ranking_sorted (totals : Dict.t V) :
  Forall comparable_entry totals ->
  StronglySorted ranks_before (sorted tuple_lt rank_key (Dict.items totals)).
Proof.
  intros HP.
  pose proof (sorted_sorted tuple_lt rank_key comparable_entry
                rank_lt_asym rank_not_after_trans totals HP) as Hs.
  assert (HP' : Forall comparable_entry (sorted tuple_lt rank_key totals)).
  { apply (Permutation_Forall (Permutation_sym (sorted_perm _ _ totals))), HP. }
  unfold Dict.items.
  induction Hs as [|x l Hs IH Hx]; constructor.
  - inversion HP'; auto.
  - inversion HP' as [|? ? Px Pl]; subst.
    rewrite Forall_forall in *. intros y Hy.
    apply not_after_ranks_before; auto.
Qed.

End Ranking.

Lemma comparable_entries {V} `{PyNum V} (totals : Dict.t V) :
  Forall comparable (Dict.values totals) <-> Forall comparable_entry totals.
Proof. unfold Dict.values. now rewrite Forall_map. Qed.

Lemma StronglySorted_distinct_keys {V} (R R' : string * V -> string * V -> Prop)
    (l : list (string * V)) :
  (forall x y, R x y -> fst x <> fst y -> R' x y) ->
  NoDup (map fst l) -> StronglySorted R l -> StronglySorted R' l.
Proof.
  intros HR. induction l as [|x l IH]; intros Hnd Hs; [constructor|].
  inversion Hnd as [|? ? Hx Hnd']; subst.
  inversion Hs as [|? ? Hs' Hall]; subst.
  constructor; auto.
  rewrite Forall_forall in *. intros y Hy. apply HR; auto.
  intros E. apply Hx. rewrite E. now apply in_map.
Qed.

Lemma top_users_prefix {V} `{PyNum V} (totals : Dict.t V) (limit : Z) :
  exists rest,
    (top_users totals limit ++ rest)%list =
    sorted tuple_lt rank_key (Dict.items totals).
Proof.
  unfold top_users, slice_to. eexists. apply firstn_skipn.
Qed.

(** ** The order on floats *)

Lemma float_compare_rank (a b : Float.t) :
  Float.is_nan a = false -> Float.is_nan b = false ->
  match SFcompare a b with
  | Some Lt => lex_lt (float_rank a) (float_rank b)
  | Some Eq => lex_eq (float_rank a) (float_rank b)
  | Some Gt => lex_lt (float_rank b) (float_rank a)
  | None => False
  end.
Proof.
  destruct a as [[]|[]| |[] ma ea], b as [[]|[]| |[] mb eb];
    simpl; try discriminate; intros _ _; try lia.
  - destruct (Z.compare_spec ea eb); try lia.
    change (Pos.compare_cont Eq ma mb) with (Pos.compare ma mb).
    destruct (Pos.compare_spec ma mb); simpl; lia.
  - destruct (Z.compare_spec ea eb); try lia.
    change (Pos.compare_cont Eq ma mb) with (Pos.compare ma mb).
    destruct (Pos.compare_spec ma mb); simpl; lia.
Qed.

Lemma float_lt_rank (a b : Float.t) :
  Float.is_nan a = false -> Float.is_nan b = false ->
  (Float.lt a b = true <-> lex_lt (float_rank a) (float_rank b)).
Proof.
  intros Ha Hb.
  pose proof (float_compare_rank a b Ha Hb) as Hab.
  unfold Float.lt, SFltb.
  destruct (float_rank a) as [[a1 a2] a3], (float_rank b) as [[b1 b2] b3].
  destruct (SFcompare a b) as [[]|]; simpl in *;
    intuition (try discriminate; try lia).
Qed.

Lemma float_eq_rank (a b : Float.t) :
  Float.is_nan a = false -> Float.is_nan b = false ->
  (Float.eq a b = true <-> lex_eq (float_rank a) (float_rank b)).
Proof.
  intros Ha Hb.
  pose proof (float_compare_rank a b Ha Hb) as Hab.
  unfold Float.eq, SFeqb.
  destruct (float_rank a) as [[a1 a2] a3], (float_rank b) as [[b1 b2] b3].
  destruct (SFcompare a b) as [[]|]; simpl in *;
    intuition (try discriminate; try lia).
Qed.

Lemma float_rank_neg (a : Float.t) :
  let '(a1, a2, a3) := float_rank a in
  float_rank (Float.neg a) = (- a1, - a2, - a3).
Proof. destruct a as [[]|[]| |[] m e]; simpl; auto. f_equal. f_equal. lia. Qed.

Lemma float_comparable (a : Float.t) :
  comparable a <-> Float.is_nan a = false.
Proof.
  unfold comparable. simpl. split.
  - destruct a; simpl; intros E; auto; discriminate.
  - intros Ha. apply float_eq_rank; auto.
    destruct (float_rank a) as [[a1 a2] a3]. simpl. auto.
Qed.

Lemma float_lt_false_rank (a b : Float.t) :
  Float.is_nan a = false -> Float.is_nan b = false ->
  (Float.lt a b = false <-> ~ lex_lt (float_rank a) (float_rank b)).
Proof.
  intros Ha Hb. rewrite <- float_lt_rank by assumption.
  destruct (Float.lt a b); intuition discriminate.
Qed.

#[export] Instance float_order : PyNumOrder Float.t.
Proof.
  split.
  - intros a Ha. apply float_comparable in Ha.
    apply float_comparable. now destruct a.
  - intros a b Ha Hb. apply float_comparable in Ha, Hb. simpl.
    pose proof (float_eq_rank a b Ha Hb) as He.
    pose proof (float_lt_rank a b Ha Hb) as H1.
    pose proof (float_lt_rank b a Hb Ha) as H2.
    destruct (float_rank a) as [[a1 a2] a3], (float_rank b) as [[b1 b2] b3].
    simpl in *.
    destruct (Float.eq a b), (Float.lt a b), (Float.lt b a); simpl; auto;
      exfalso; intuition (try discriminate; try lia).
  - intros a b Ha Hb. apply float_comparable in Ha, Hb. simpl.
    rewrite float_lt_rank, float_lt_false_rank by assumption.
    destruct (float_rank a) as [[a1 a2] a3], (float_rank b) as [[b1 b2] b3].
    simpl. lia.
  - intros a b c Ha Hb Hc. apply float_comparable in Ha, Hb, Hc. simpl.
    rewrite !float_lt_false_rank by assumption.
    destruct (float_rank a) as [[a1 a2] a3], (float_rank b) as [[b1 b2] b3],
      (float_rank c) as [[c1 c2] c3].
    simpl. lia.
  - intros a b Ha Hb. apply float_comparable in Ha, Hb. simpl.
    assert (Hna : Float.is_nan (Float.neg a) = false) by now destruct a.
    assert (Hnb : Float.is_nan (Float.neg b) = false) by now destruct b.
    pose proof (float_lt_rank (Float.neg a) (Float.neg b) Hna Hnb) as H1.
    pose proof (float_lt_rank b a Hb Ha) as H2.
    pose proof (float_rank_neg a) as Ra. pose proof (float_rank_neg b) as Rb.
    destruct (float_rank a) as [[a1 a2] a3], (float_rank b) as [[b1 b2] b3].
    rewrite Ra, Rb in H1. simpl in *.
    destruct (Float.lt (Float.neg a) (Float.neg b)), (Float.lt b a); auto;
      exfalso; intuition (try discriminate; try lia).
Qed.

(** ** [top_users] *)

(** C1, as amended.  For a limit [k >= 0] and values that are comparable
    (ints, or floats other than NaN), [top_users] returns entries ranked by
    descending value, level values by ascending key, every earlier entry
    before every later one, so also within a tie of three or more; with
    distinct keys the ranks are strict.  The result is the first
    [min(k, n)] entries of a ranked permutation of all [n] entries: every
    entry left out ranks after every entry returned.  [k = 0] gives the empty
    list and [k >= n] gives all entries. *)
Theorem C1_top_users_ranking {V : Type} `{PyNumOrder V}
    (totals : Dict.t V) (k : Z) :
  Forall comparable (Dict.values totals) ->
  0 <= k ->
  StronglySorted ranks_before (top_users totals k) /\
  (Dict.wf totals -> StronglySorted ranks_strictly_before (top_users totals k)) /\
  Z.of_nat (List.length (top_users totals k)) =
    Z.min k (Z.of_nat (List.length (Dict.items totals))) /\
  (exists rest,
     Permutation (top_users totals k ++ rest) (Dict.items totals) /\
     Forall (fun x => Forall (ranks_before x) rest) (top_users totals k)) /\
  (k = 0 -> top_users totals k = []) /\
  (Z.of_nat (List.length (Dict.items totals)) <= k ->
   Permutation (top_users totals k) (Dict.items totals)).
Proof.
  intros Hc Hk. apply comparable_entries in Hc.
  pose proof (ranking_sorted totals Hc) as Hs.
  pose proof (sorted_perm tuple_lt rank_key (Dict.items totals)) as Hp.
  destruct (top_users_prefix totals k) as [rest Hrest].
  rewrite <- Hrest in Hs, Hp.
  destruct (StronglySorted_app_inv _ _ _ Hs) as (Hs1 & _ & Hcut).
  assert (Hlen : Z.of_nat (List.length (top_users totals k)) =
                 Z.min k (Z.of_nat (List.length (Dict.items totals)))).
  { unfold top_users. rewrite slice_to_length, sorted_length.
    destruct (k <? 0) eqn:E; auto. apply Z.ltb_lt in E. lia. }
  split; [assumption|]. split; [|split; [assumption|split; [|split]]].
  - intros Hwf. apply StronglySorted_distinct_keys with (R := ranks_before); auto.
    + unfold ranks_before, ranks_strictly_before.
      intros x y [Hlt|[Heq Hle]] Hne; auto. right. split; auto.
      apply str_leb_ltb_or_eq in Hle. tauto.
    + assert (Hnd : NoDup (map fst (top_users totals k ++ rest))).
      { apply (Permutation_NoDup (Permutation_sym (Permutation_map fst Hp))).
        exact Hwf. }
      rewrite map_app in Hnd. now apply NoDup_app_remove_r in Hnd.
  - exists rest. split; assumption.
  - intros ->. unfold top_users. now rewrite slice_to_nonneg.
  - intros Hall.
    assert (Hr : rest = []).
    { apply Permutation_length in Hp. rewrite length_app in Hp.
      destruct rest; auto. simpl in Hp. lia. }
    rewrite Hr, app_nil_r in Hp. exact Hp.
Qed.

Lemma C1_top_users_ranking_witness :
  top_users [("bob", 3); ("alice", 3); ("carla", 5); ("dan", 3)] 3 =
    [("carla", 5); ("alice", 3); ("bob", 3)] /\
  StronglySorted ranks_strictly_before
    (top_users [("bob", 3); ("alice", 3); ("carla", 5); ("dan", 3)] 3) /\
  top_users [("bob", Float.dyadic 17 (-1)); ("alice", Float.dyadic 17 (-1));
             ("carla", Float.dyadic 49 (-2))] 2 =
    [("carla", Float.dyadic 49 (-2)); ("alice", Float.dyadic 17 (-1))] /\
  StronglySorted ranks_before
    (top_users [("bob", Float.dyadic 17 (-1)); ("alice", Float.dyadic 17 (-1));
                ("carla", Float.dyadic 49 (-2))] 2).
Proof.
  split; [reflexivity|]. split; [|split; [vm_compute; reflexivity|]].
  - refine (proj1 (proj2 (C1_top_users_ranking
              [("bob", 3); ("alice", 3); ("carla", 5); ("dan", 3)] 3 _ _)) _).
    + repeat constructor.
    + lia.
    + unfold Dict.wf. simpl.
      repeat constructor; simpl; intuition discriminate.
  - refine (proj1 (C1_top_users_ranking
              [("bob", Float.dyadic 17 (-1)); ("alice", Float.dyadic 17 (-1));
               ("carla", Float.dyadic 49 (-2))] 2 _ _)).
    + repeat constructor.
    + lia.
Defined.

(** C1 as stated fails in two places.  At a negative [k] the length can not
    be [min(k, n)].  And a ledger may hold NaN, which [parse_purchases] lets
    in: in the totals [b: 1.0, a: nan, c: 2.0] no key is below the key before
    it, so the sort leaves the list as it stands, with 1.0 ranked before
    2.0. *)
Lemma C1_as_stated_counterexample :
  ~ (forall (totals : Dict.t Z) (k : Z),
       Z.of_nat (List.length (top_users totals k)) =
       Z.min k (Z.of_nat (List.length (Dict.items totals)))) /\
  ~ (forall (totals : Dict.t Float.t) (k : Z),
       0 <= k -> StronglySorted ranks_before (top_users totals k)).
Proof.
  split.
  - intros Hall. specialize (Hall [("alice", 2); ("bob", 1)] (-1)).
    vm_compute in Hall. discriminate.
  - intros Hall.
    specialize (Hall [("b", Float.dyadic 1 0); ("a", Float.nan);
                      ("c", Float.dyadic 1 1)] 3).
    assert (Hk : 0 <= 3) by lia. specialize (Hall Hk).
    replace (top_users [("b", Float.dyadic 1 0); ("a", Float.nan);
                        ("c", Float.dyadic 1 1)] 3)
      with [("b", Float.dyadic 1 0); ("a", Float.nan); ("c", Float.dyadic 1 1)]
      in Hall by (vm_compute; reflexivity).
    inversion Hall as [|? ? _ Hb]; subst.
    inversion Hb as [|? ? _ Hb']; subst.
    inversion Hb' as [|? ? Hbc _]; subst.
    clear - Hbc. unfold ranks_before in Hbc. cbn [fst snd] in Hbc.
    destruct Hbc as [Hlt|[Heq _]].
    + vm_compute in Hlt. discriminate.
    + vm_compute in Heq. discriminate.
Qed.

(** C10, as amended.  For a negative limit [top_users] returns the ranking
    without its last [|limit|] entries: [max(0, n + limit)] entries, never
    [min(limit, n)] of them, none exactly when [|limit| >= n]; with
    [limit = -1] it returns all entries but the lowest ranked. *)
Theorem C10_negative_limit_drops_tail {V : Type} `{PyNum V}
    (totals : Dict.t V) (limit : Z) :
  limit < 0 ->
  let ranking := sorted tuple_lt rank_key (Dict.items totals) in
  let n := Z.of_nat (List.length (Dict.items totals)) in
  (exists dropped,
     ranking = (top_users totals limit ++ dropped)%list /\
     Z.of_nat (List.length dropped) = Z.min (- limit) n) /\
  Z.of_nat (List.length (top_users totals limit)) = Z.max 0 (n + limit) /\
  Z.of_nat (List.length (top_users totals limit)) <> Z.min limit n /\
  (top_users totals limit = [] <-> n <= - limit) /\
  (limit = -1 -> top_users totals limit = removelast ranking).
Proof.
  intros Hneg ranking n.
  assert (Hn : Z.of_nat (List.length ranking) = n).
  { unfold ranking, n. now rewrite sorted_length. }
  assert (Hlen : Z.of_nat (List.length (top_users totals limit)) =
                 Z.max 0 (n + limit)).
  { unfold top_users. fold ranking. rewrite slice_to_length, Hn.
    apply Z.ltb_lt in Hneg. now rewrite Hneg. }
  split; [|split; [assumption|split; [lia|split]]].
  - exists (skipn (List.length ranking - Z.to_nat (- limit)) ranking).
    unfold top_users. fold ranking. rewrite slice_to_neg by assumption.
    split; [now rewrite firstn_skipn|].
    rewrite length_skipn. lia.
  - split.
    + intros E. rewrite E in Hlen. simpl in Hlen. lia.
    + intros Hle. destruct (top_users totals limit); auto.
      simpl in Hlen. lia.
  - intros ->. unfold top_users. fold ranking.
    rewrite slice_to_neg by lia. simpl.
    rewrite removelast_firstn_len. f_equal. lia.
Qed.

Lemma C10_negative_limit_drops_tail_witness :
  -1 < 0 /\
  top_users [("bob", 3); ("alice", 3); ("carla", 5)] (-1) =
    removelast (sorted tuple_lt rank_key [("bob", 3); ("alice", 3); ("carla", 5)]).
Proof.
  split; [lia|].
  refine (proj2 (proj2 (proj2 (proj2 (C10_negative_limit_drops_tail
            [("bob", 3); ("alice", 3); ("carla", 5)] (-1) _)))) eq_refl).
  lia.
Defined.

(** C10 as stated fails on a dict with one entry: with [limit = -1] the
    result is empty although the dict is not. *)
Lemma C10_single_entry_counterexample :
  ~ (forall (totals : Dict.t Z) (limit : Z),
       totals <> [] -> limit < 0 -> top_users totals limit <> []).
Proof.
  intros Hall. apply (Hall [("alice", 1)] (-1)).
  - discriminate.
  - lia.
  - reflexivity.
Qed.

(** ** [most_common] *)

Lemma collect_highest_filter highest (d : Dict.t Z) :
  Counter.collect_highest highest d =
  map fst (filter (fun kv => snd kv =? highest) d).
Proof.
  unfold Counter.collect_highest, Dict.items.
  assert (Hgen : forall acc,
    fold_left (fun highest_list (kv : string * Z) =>
                 if snd kv =? highest then (highest_list ++ [fst kv])%list
                 else highest_list) d acc =
    (acc ++ map fst (filter (fun kv => snd kv =? highest) d))%list).
  { induction d as [|kv d IH]; intros acc; simpl.
    - now rewrite app_nil_r.
    - rewrite IH. destruct (snd kv =? highest); simpl; auto.
      now rewrite <- app_assoc. }
  apply Hgen.
Qed.

Lemma py_max_spec x xs :
  exists m, py_max (x :: xs) = Ok m /\ In m (x :: xs) /\
            Forall (fun v => v <= m) (x :: xs).
Proof.
  simpl. eexists. split; [reflexivity|].
  revert x. induction xs as [|y xs IH]; intros x; simpl.
  - split; auto. repeat constructor. lia.
  - destruct (IH (if y >? x then y else x)) as [Hin Hall].
    inversion Hall as [|? ? Hhd Htl]; subst.
    destruct (Z.gtb_spec y x).
    + split; [tauto|]. repeat constructor; auto; lia.
    + split; [tauto|]. repeat constructor; auto; lia.
Qed.

Lemma sorted_str_head (l : list string) k rest :
  sorted String.ltb (fun k => k) l = k :: rest ->
  In k l /\ forall k', In k' l -> String.leb k k' = true.
Proof.
  intros E.
  pose proof (sorted_perm String.ltb (fun k => k) l) as Hp.
  assert (Hs : StronglySorted (not_after String.ltb (fun k => k))
                 (sorted String.ltb (fun k => k) l)).
  { apply sorted_sorted with (P := fun _ => True).
    - intros x y _ _. apply str_ltb_asym.
    - unfold not_after. intros x y z _ _ _.
      rewrite !str_ltb_leb, !negb_false_iff. apply str_leb_trans.
    - apply Forall_forall. trivial. }
  rewrite E in Hs, Hp. inversion Hs as [|? ? _ Hk]; subst.
  split.
  - apply (Permutation_in _ Hp). now left.
  - intros k' Hin. apply (Permutation_in _ (Permutation_sym Hp)) in Hin.
    destruct Hin as [->|Hin]; [apply str_leb_refl|].
    rewrite Forall_forall in Hk. specialize (Hk _ Hin).
    unfold not_after in Hk. now rewrite str_ltb_leb, negb_false_iff in Hk.
Qed.

Lemma int_comparable (l : list (string * Z)) : Forall comparable_entry l.
Proof.
  apply Forall_forall. intros x _. unfold comparable_entry, comparable. simpl.
  apply Z.eqb_refl.
Qed.

(** The best entry of a non-empty dict of ints: the head of the ranking. *)
Lemma ranking_head (d : Dict.t Z) :
  d <> [] ->
  exists t rest,
    sorted tuple_lt rank_key (Dict.items d) = t :: rest /\
    In t d /\ forall y, In y d -> ranks_before t y.
Proof.
  intros Hne.
  pose proof (sorted_perm tuple_lt rank_key (Dict.items d)) as Hp.
  pose proof (ranking_sorted d (int_comparable d)) as Hs.
  destruct (sorted tuple_lt rank_key (Dict.items d)) as [|t rest] eqn:E.
  - apply Permutation_nil in Hp. contradiction.
  - exists t, rest. split; auto. inversion Hs as [|? ? _ Ht]; subst. split.
    + apply (Permutation_in _ Hp). now left.
    + intros y Hy. apply (Permutation_in _ (Permutation_sym Hp)) in Hy.
      destruct Hy as [->|Hy].
      * right. split; [apply Z.eqb_refl|apply str_leb_refl].
      * rewrite Forall_forall in Ht. auto.
Qed.

Lemma most_common_is_ranking_head (self : Counter.t) t rest :
  sorted tuple_lt rank_key (Dict.items (Counter.words self)) = t :: rest ->
  Counter.most_common self = Ok t.
Proof.
  intros E. destruct self as [d]. simpl in E.
  assert (Hne : d <> []) by (intros ->; discriminate).
  destruct (ranking_head d Hne) as (t' & rest' & E' & Hin & Hbest).
  rewrite E in E'. inversion E'; subst t' rest'. clear E'.
  unfold Counter.most_common. simpl.
  destruct d as [|e d']; [contradiction|]. simpl Dict.is_empty. cbv iota.
  set (d := e :: d') in *.
  destruct (py_max_spec (snd e) (map snd d')) as (highest & Hmax & Hmem & Hub).
  change (snd e :: map snd d') with (Dict.values d) in Hmax, Hmem, Hub.
  rewrite Hmax. simpl bind.
  rewrite collect_highest_filter, getitem_0.
  (* the best entry carries the highest value *)
  destruct t as [kt vt].
  assert (Hvt : vt = highest).
  { unfold Dict.values in Hmem, Hub. apply in_map_iff in Hmem.
    destruct Hmem as ([kh vh] & Hvh & Hinh). simpl in Hvh. subst vh.
    rewrite Forall_map, Forall_forall in Hub.
    specialize (Hub _ Hin). simpl in Hub.
    destruct (Hbest _ Hinh) as [Hlt|[Heq _]]; simpl in *.
    - apply Z.ltb_lt in Hlt. lia.
    - now apply Z.eqb_eq in Heq. }
  subst vt.
  assert (Hkt : In kt (map fst (filter (fun kv => snd kv =? highest) d))).
  { apply in_map_iff. exists (kt, highest). split; auto.
    apply filter_In. split; auto. simpl. apply Z.eqb_refl. }
  destruct (sorted String.ltb (fun k => k)
              (map fst (filter (fun kv => snd kv =? highest) d)))
    as [|k0 ks] eqn:Es.
  - pose proof (sorted_perm String.ltb (fun k => k)
                  (map fst (filter (fun kv => snd kv =? highest) d))) as Hp.
    rewrite Es in Hp. apply Permutation_nil in Hp. rewrite Hp in Hkt.
    contradiction.
  - simpl. destruct (sorted_str_head _ _ _ Es) as [Hk0 Hmin].
    f_equal. f_equal.
    apply in_map_iff in Hk0. destruct Hk0 as ([k0' v0] & Hk & Hf).
    simpl in Hk. subst k0'. apply filter_In in Hf. destruct Hf as [Hin0 Hv0].
    simpl in Hv0. apply Z.eqb_eq in Hv0. subst v0.
    apply String.leb_antisym; [now apply Hmin|].
    destruct (Hbest _ Hin0) as [Hlt|[_ Hle]]; simpl in *; auto.
    apply Z.ltb_lt in Hlt. lia.
Qed.

(** C3. [most_common] raises [ValueError] exactly when the counter is empty;
    on a non-empty counter it returns the entry that [top_users] with limit 1
    puts first. *)
Theorem C3_most_common_is_top_1 (self : Counter.t) :
  (Counter.words self = [] ->
   Counter.most_common self = Raise (ValueError "Counter is empty")) /\
  (Counter.words self <> [] ->
   exists best,
     Counter.most_common self = Ok best /\
     top_users (Counter.words self) 1 = [best] /\
     getitem (top_users (Counter.words self) 1) 0 = Ok best) /\
  ((exists e, Counter.most_common self = Raise e) <-> Counter.words self = []).
Proof.
  assert (Hnonempty : Counter.words self <> [] ->
    exists best,
      Counter.most_common self = Ok best /\
      top_users (Counter.words self) 1 = [best] /\
      getitem (top_users (Counter.words self) 1) 0 = Ok best).
  { intros Hne.
    destruct (ranking_head _ Hne) as (t & rest & E & _).
    exists t. split; [eapply most_common_is_ranking_head; eassumption|].
    assert (Ht : top_users (Counter.words self) 1 = [t]).
    { unfold top_users. rewrite slice_to_nonneg by lia. rewrite E. reflexivity. }
    split; [assumption|]. rewrite Ht. reflexivity. }
  split; [|split; [assumption|]].
  - intros E. unfold Counter.most_common. rewrite E. reflexivity.
  - split.
    + intros [e He]. destruct (Counter.words self) eqn:E; auto.
      destruct Hnonempty as (best & Hb & _); congruence.
    + intros E. eexists. unfold Counter.most_common. rewrite E. reflexivity.
Qed.

(** ** [strip] *)

Lemma lstrip_idem s : lstrip (lstrip s) = lstrip s.
Proof.
  induction s as [|c s IH]; simpl; auto.
  destruct (isspace c) eqn:E; auto. simpl. now rewrite E.
Qed.

Lemma rstrip_idem s : rstrip (rstrip s) = rstrip s.
Proof.
  induction s as [|c s IH]; simpl; auto.
  destruct (rstrip s) as [|c' r] eqn:Er.
  - destruct (isspace c) eqn:E; simpl; auto. now rewrite E.
  - simpl in *. now rewrite IH.
Qed.

Lemma rstrip_tail c s : rstrip (String c s) = String c s -> rstrip s = s.
Proof.
  simpl. destruct (rstrip s) as [|c' r] eqn:Er.
  - destruct (isspace c); [discriminate|]. intros E. now inversion E.
  - intros E. now inversion E.
Qed.

Lemma rstrip_lstrip s : rstrip s = s -> rstrip (lstrip s) = lstrip s.
Proof.
  induction s as [|c s IH]; intros E; auto.
  simpl lstrip. destruct (isspace c); auto.
  apply IH. eapply rstrip_tail. eassumption.
Qed.

Lemma strip_idem s : strip (strip s) = strip s.
Proof.
  unfold strip. rewrite rstrip_lstrip by apply rstrip_idem.
  apply lstrip_idem.
Qed.

(** ** Building the ledger from records *)

Lemma init_parsed user country amount :
  Purchase.__init__ (strip user) (strip country) amount =
  if negb (truthy (strip user)) then Raise (ValueError "user must be non-empty")
  else if Float.lt amount Float.zero then
    Raise (ValueError "amount must be non-negative")
  else Ok (Purchase.mk (strip user) (strip country) amount).
Proof. unfold Purchase.__init__. now rewrite !strip_idem. Qed.

Lemma parse_purchases_raises (lines : list line) :
  Exists (fun r => blank_user r \/ negative_amount r) lines ->
  is_value_error (parse_purchases lines).
Proof.
  induction lines as [|[[user country] amount] rest IH]; intros Hex.
  - inversion Hex.
  - simpl. rewrite init_parsed.
    destruct (truthy (strip user)) eqn:Eu; simpl; [|eexists; reflexivity].
    destruct (Float.lt amount Float.zero) eqn:Ea; simpl; [eexists; reflexivity|].
    inversion Hex as [? ? [Hb|Hn]|? ? Hrest]; subst; simpl in *; try congruence.
    destruct (IH Hrest) as [msg ->]. eexists; reflexivity.
Qed.

Lemma parse_purchases_ok (lines : list line) :
  Forall (fun r => ~ blank_user r /\ ~ negative_amount r) lines ->
  parse_purchases lines =
  Ok (map (fun r : line => let '(user, country, amount) := r in
             Purchase.mk (strip user) (strip country) amount) lines).
Proof.
  induction lines as [|[[user country] amount] rest IH]; intros Hall; auto.
  inversion Hall as [|? ? [Hb Hn] Hrest]; subst. simpl in *.
  rewrite init_parsed, (IH Hrest).
  destruct (truthy (strip user)); [|congruence].
  destruct (Float.lt amount Float.zero); [congruence|]. reflexivity.
Qed.

Lemma record_decide (r : line) :
  (blank_user r \/ negative_amount r) \/ (~ blank_user r /\ ~ negative_amount r).
Proof.
  destruct r as [[user country] amount]. simpl.
  destruct (truthy (strip user)), (Float.lt amount Float.zero);
    intuition congruence.
Qed.

(** A record is in a category exactly when the purchase built from it passes
    [is_in_country]. *)
Lemma in_category_is_in_country user country amount purchase category :
  Purchase.__init__ (strip user) (strip country) amount = Ok purchase ->
  (Purchase.is_in_country purchase category = true <->
   in_category category (user, country, amount)).
Proof.
  rewrite init_parsed.
  destruct (negb (truthy (strip user))); [discriminate|].
  destruct (Float.lt amount Float.zero); [discriminate|].
  intros E. inversion E; subst. unfold Purchase.is_in_country. simpl.
  apply String.eqb_eq.
Qed.

Lemma records_decide (records : list line) :
  Exists (fun r => blank_user r \/ negative_amount r) records \/
  Forall (fun r => ~ blank_user r /\ ~ negative_amount r) records.
Proof.
  induction records as [|r rest IH]; [right; constructor|].
  destruct (record_decide r) as [Hbad|Hgood]; [left; now constructor|].
  destruct IH as [Hex|Hall]; [left; now constructor 2|right; now constructor].
Qed.

(** C4, as amended.  Building the ledger fails with [ValueError], and yields
    no ledger, as soon as one record, of the category asked for or of any
    other, has an amount below zero or a blank user; so it fails whenever a
    record of the category has a negative amount.  It succeeds when every
    record has a user and an amount not below zero, and then the ledger is
    the aggregation of the purchases built from the records. *)
Theorem C4_build_rejects_invalid_records (records : list line) (category : string) :
  (Exists (fun r => in_category category r /\ negative_amount r) records ->
   is_value_error (build_filtered_ledger records category)) /\
  (Exists (fun r => blank_user r \/ negative_amount r) records <->
   is_value_error (build_filtered_ledger records category)) /\
  (Forall (fun r => ~ blank_user r /\ ~ negative_amount r) records <->
   exists ledger, build_filtered_ledger records category = Ok ledger).
Proof.
  assert (Hraise : Exists (fun r => blank_user r \/ negative_amount r) records ->
                   is_value_error (build_filtered_ledger records category)).
  { intros Hex. destruct (parse_purchases_raises _ Hex) as [msg E].
    exists msg. unfold build_filtered_ledger. now rewrite E. }
  assert (Hok : Forall (fun r => ~ blank_user r /\ ~ negative_amount r) records ->
                exists ledger, build_filtered_ledger records category = Ok ledger).
  { intros Hall. unfold build_filtered_ledger.
    rewrite (parse_purchases_ok _ Hall). simpl. eauto. }
  pose proof (records_decide records) as Hdec.
  split; [|split; split; auto].
  - intros Hex. apply Hraise.
    apply Exists_exists in Hex. destruct Hex as (r & Hin & _ & Hneg).
    apply Exists_exists. eauto.
  - intros [msg E]. destruct Hdec as [Hex|Hall]; auto.
    destruct (Hok Hall) as [ledger E']. congruence.
  - intros [ledger E]. destruct Hdec as [Hex|Hall]; auto.
    destruct (Hraise Hex) as [msg E']. congruence.
Qed.

(** C4 as stated fails on a record of another category with a negative
    amount: no record of category ["UK"] is negative, yet the build raises. *)
Lemma C4_other_category_counterexample :
  ~ (forall (records : list line) (category : string),
       Forall (fun r => in_category category r -> ~ negative_amount r) records ->
       exists ledger, build_filtered_ledger records category = Ok ledger).
Proof.
  intros Hall.
  destruct (Hall [("carla", "FR", Float.neg (Float.dyadic 1 0))] "UK")
    as [ledger E].
  - repeat constructor. simpl. discriminate.
  - vm_compute in E. discriminate.
Qed.

(** ** [apply_fee] *)







(** ** Adding zero *)

Lemma float_eq_zero (fee : Float.t) :
  Float.eq fee Float.zero = true -> exists s, fee = S754_zero s.
Proof. destruct fee as [s|[]| |[] m e]; try discriminate. eauto. Qed.

Lemma float_add_zero (x : Float.t) (s : bool) :
  Float.add x (S754_zero s) = x \/
  (exists s', x = S754_zero s' /\ Float.add x (S754_zero s) = Float.zero).
Proof.
  destruct x as [[]|[]| |[] m e], s; simpl; auto; right; eauto.
Qed.

Lemma float_add_zero_same (x : Float.t) (s : bool) :
  same_value x (Float.add x (S754_zero s)).
Proof.
  destruct (float_add_zero x s) as [->|(s' & -> & ->)]; [now left|].
  right. reflexivity.
Qed.

(** C8. On the float side a fee of zero is accepted by [apply_fee] and the
    amount holds the same value afterwards: the same float, except that a
    negative zero may become the positive zero, which compares equal; and a
    purchase of amount zero leaves the total of every key of the ledger at
    the same value.  On the int side [Counter.add] with [n = 0] raises
    [ValueError] and leaves the counter as it was. *)
Theorem C8_zero_amount :
  (forall (self : Purchase.t) (fee : Float.t),
     Float.eq fee Float.zero = true ->
     exists amount',
       Purchase.apply_fee fee self =
       (Ok tt, Purchase.mk (Purchase.user self) (Purchase._country self) amount') /\
       same_value (Purchase.amount self) amount' /\
       (amount' = Purchase.amount self \/
        (Purchase.amount self = Float.neg Float.zero /\ amount' = Float.zero))) /\
  (forall (totals : Dict.t Float.t) (purchase : Purchase.t) (country key : string),
     Float.eq (Purchase.amount purchase) Float.zero = true ->
     same_value (Dict.get totals key Float.zero)
       (Dict.get (spend_step country totals purchase) key Float.zero)) /\
  (forall (self : Counter.t) (item : string),
     Counter.add item 0 self =
     (Raise (ValueError "Repetition count is less than 1"), self)).
Proof.
  split; [|split].
  - intros self fee Hz. destruct (float_eq_zero fee Hz) as [s ->].
    exists (Float.add (Purchase.amount self) (S754_zero s)).
    split; [|split].
    + unfold Purchase.apply_fee. now destruct s.
    + apply float_add_zero_same.
    + destruct (float_add_zero (Purchase.amount self) s)
        as [E|([] & E1 & E2)]; auto.
      rewrite E1 in *. destruct s; simpl in *; auto.
  - intros totals purchase country key Hz.
    destruct (float_eq_zero _ Hz) as [s Hs].
    unfold spend_step. destruct (Purchase.is_in_country purchase country).
    + destruct (String.eqb_spec (Purchase.user purchase) key) as [->|Hne].
      * rewrite get_set_same, Hs. apply float_add_zero_same.
      * rewrite get_set_other by assumption. now left.
    + now left.
  - intros self item. reflexivity.
Qed.

(** ** The run of [main] *)

(** The float literals of [main] and of its expected output, read back as
    fractions: 10.0, 3.5, 2.0, 100.0, 5.0, the fee 0.25, and the totals 12.25
    and 8.5. *)
Lemma literals_exact :
  map Float.as_integer_ratio
    [Float.dyadic 5 1; Float.dyadic 7 (-1); Float.dyadic 1 1;
     Float.dyadic 25 2; Float.dyadic 5 0; Float.dyadic 1 (-2);
     Float.dyadic 49 (-2); Float.dyadic 17 (-1)] =
  [Some (10, 1); Some (7, 2); Some (2, 1); Some (100, 1); Some (5, 1);
   Some (1, 4); Some (49, 4); Some (17, 2)] /\
  Forall Float.valid
    [Float.dyadic 5 1; Float.dyadic 7 (-1); Float.dyadic 1 1;
     Float.dyadic 25 2; Float.dyadic 5 0; Float.dyadic 1 (-2);
     Float.dyadic 49 (-2); Float.dyadic 17 (-1)].
Proof. split; [vm_compute; reflexivity|]. repeat constructor. Qed.

(** C9. From the five records of [main], with the fee of 0.25 on the first
    purchase of alice, the totals for ["UK"] are 12.25 for alice and 8.5 for
    bob, and [top_users] with limit 3 returns them in that order. *)
Theorem C9_main_leaders :
  main_leaders =
    Ok [("alice", Float.dyadic 49 (-2)); ("bob", Float.dyadic 17 (-1))] /\
  (exists purchases,
     parse_purchases raw_lines = Ok purchases /\
     total_spend_by_user
       (snd (apply_fee_at 0 (Float.dyadic 1 (-2)) purchases)) "UK" =
     [("alice", Float.dyadic 49 (-2)); ("bob", Float.dyadic 17 (-1))]).
Proof.
  split.
  - vm_compute. reflexivity.
  - eexists. split; [vm_compute; reflexivity|]. vm_compute. reflexivity.
Qed.

(** ** Float addition on values that are not negative

    The sum of two positive floats is traced through the alignment of the
    mantissas, the shift to the target exponent, the rounding and the
    renormalisation, with [Z.log2] counting digits. *)

Lemma iter_pos_iter {A} (f : A -> A) p : forall x, iter_pos f p x = Pos.iter f x p.
Proof.
  induction p as [p IH|p IH|]; intros x; simpl; auto.
  - rewrite !IH. rewrite !Pos.iter_swap. reflexivity.
  - now rewrite !IH.
Qed.

Lemma shr_1_quot2 r : shr_m (shr_1 r) = Z.quot2 (shr_m r).
Proof. destruct r as [[|[p|p|]|[p|p|]] rr s]; reflexivity. Qed.

Lemma iter_quot2 m p : 0 <= m -> Pos.iter Z.quot2 m p = m / 2 ^ Zpos p.
Proof.
  intros Hm. induction p as [|p IH] using Pos.peano_ind.
  - simpl. rewrite Zeven.Zquot2_quot. now apply Z.quot_div_nonneg.
  - rewrite Pos.iter_succ, IH, Zeven.Zquot2_quot.
    rewrite Z.quot_div_nonneg; try lia.
    + rewrite Z.div_div by lia. rewrite Pos2Z.inj_succ, Z.pow_succ_r by lia.
      f_equal. lia.
    + apply Z.div_pos; lia.
Qed.

Lemma shr_m_iter p r :
  0 <= shr_m r -> shr_m (iter_pos shr_1 p r) = shr_m r / 2 ^ Zpos p.
Proof.
  intros Hm. rewrite iter_pos_iter.
  rewrite (Pos.iter_swap_gen _ _ shr_m shr_1 Z.quot2 shr_1_quot2).
  now apply iter_quot2.
Qed.

Lemma digits2_size p : digits2_pos p = Pos.size p.
Proof. induction p; simpl; congruence. Qed.

Lemma Zdigits2_log2 m : 0 < m -> Zdigits2 m = Z.log2 m + 1.
Proof.
  destruct m as [|p|p]; try lia. intros _. simpl.
  rewrite digits2_size. destruct p; simpl; lia.
Qed.

Lemma fexp64_eq e : fexp Float.prec Float.emax e = Z.max (e - 53) (-1074).
Proof. reflexivity. Qed.

Lemma Zdigits2_pos m : 0 < m -> 0 < Zdigits2 m.
Proof. intros Hm. rewrite Zdigits2_log2 by assumption. pose proof (Z.log2_nonneg m). lia. Qed.

Lemma Zdigits2_mono a b : 0 < a -> a <= b -> Zdigits2 a <= Zdigits2 b.
Proof.
  intros Ha Hab. rewrite !Zdigits2_log2 by lia.
  pose proof (Z.log2_le_mono a b Hab). lia.
Qed.

Lemma Zdigits2_shl m k : 0 < m -> 0 <= k -> Zdigits2 (m * 2 ^ k) = Zdigits2 m + k.
Proof.
  intros Hm Hk. assert (0 < 2 ^ k) by (apply Z.pow_pos_nonneg; lia).
  rewrite !Zdigits2_log2 by nia. rewrite Z.log2_mul_pow2 by lia. lia.
Qed.

Lemma Zdigits2_bounds m : 0 < m -> 2 ^ (Zdigits2 m - 1) <= m < 2 ^ Zdigits2 m.
Proof.
  intros Hm. rewrite Zdigits2_log2 by assumption.
  replace (Z.log2 m + 1 - 1) with (Z.log2 m) by lia.
  apply Z.log2_spec. assumption.
Qed.

Lemma Zdigits2_shr m n :
  0 < m -> 0 <= n < Zdigits2 m ->
  0 < m / 2 ^ n /\ Zdigits2 (m / 2 ^ n) = Zdigits2 m - n.
Proof.
  intros Hm Hn. destruct (Zdigits2_bounds m Hm) as [Hlo Hhi].
  assert (Hp : 0 < 2 ^ n) by (apply Z.pow_pos_nonneg; lia).
  assert (Hq : 0 < m / 2 ^ n).
  { apply Z.div_str_pos. split; auto.
    apply Z.le_trans with (2 ^ (Zdigits2 m - 1)); auto.
    apply Z.pow_le_mono_r; lia. }
  split; auto.
  rewrite !Zdigits2_log2 by assumption.
  rewrite <- Z.shiftr_div_pow2 by lia. rewrite Z.log2_shiftr by assumption.
  rewrite Zdigits2_log2 in Hn by assumption. lia.
Qed.

Lemma Zdigits2_shr_zero m n :
  0 < m -> Zdigits2 m <= n -> m / 2 ^ n = 0.
Proof.
  intros Hm Hn. destruct (Zdigits2_bounds m Hm) as [_ Hhi].
  apply Z.div_small. split; [lia|].
  apply Z.lt_le_trans with (2 ^ Zdigits2 m); auto.
  apply Z.pow_le_mono_r; try lia.
Qed.

Lemma shr_m_of_loc m l : shr_m (shr_record_of_loc m l) = m.
Proof. destruct l as [|[]]; reflexivity. Qed.

Lemma shr_fexp_keep m e l :
  fexp Float.prec Float.emax (Zdigits2 m + e) <= e ->
  shr_fexp Float.prec Float.emax m e l = (shr_record_of_loc m l, e).
Proof.
  intros H. unfold shr_fexp, shr.
  destruct (fexp Float.prec Float.emax (Zdigits2 m + e) - e) eqn:E; auto. lia.
Qed.

Lemma shr_fexp_shift m e l :
  0 <= m ->
  e <= fexp Float.prec Float.emax (Zdigits2 m + e) ->
  shr_m (fst (shr_fexp Float.prec Float.emax m e l)) =
    m / 2 ^ (fexp Float.prec Float.emax (Zdigits2 m + e) - e) /\
  snd (shr_fexp Float.prec Float.emax m e l) =
    fexp Float.prec Float.emax (Zdigits2 m + e).
Proof.
  intros Hm H. unfold shr_fexp, shr.
  destruct (fexp Float.prec Float.emax (Zdigits2 m + e) - e) eqn:E; try lia; simpl.
  - rewrite shr_m_of_loc, Z.div_1_r. split; lia.
  - rewrite shr_m_iter by (rewrite shr_m_of_loc; assumption).
    rewrite shr_m_of_loc. split; auto. lia.
Qed.

Lemma round_nearest_even_bounds mx lx :
  mx <= round_nearest_even mx lx <= mx + 1.
Proof. destruct lx as [|[]]; simpl; try destruct (Z.even mx); lia. Qed.

Lemma binary_round_aux_spec m e :
  0 < m ->
  e <= fexp Float.prec Float.emax (Zdigits2 m + e) ->
  round_spec (m / 2 ^ (fexp Float.prec Float.emax (Zdigits2 m + e) - e))
    (fexp Float.prec Float.emax (Zdigits2 m + e))
    (binary_round_aux Float.prec Float.emax false m e loc_Exact).
Proof.
  intros Hm HE.
  set (E := fexp Float.prec Float.emax (Zdigits2 m + e)) in *.
  set (q := m / 2 ^ (E - e)).
  unfold binary_round_aux.
  destruct (shr_fexp_shift m e loc_Exact) as [Hq He1]; [lia|exact HE|].
  fold E in Hq, He1. fold q in Hq.
  destruct (shr_fexp Float.prec Float.emax m e loc_Exact) as [r1 e1].
  simpl in Hq, He1. subst e1. rewrite Hq.
  assert (Hq0 : 0 <= q) by (apply Z.div_pos; [lia|apply Z.pow_pos_nonneg; lia]).
  pose proof (round_nearest_even_bounds q (loc_of_shr_record r1)) as Hm1.
  set (m1 := round_nearest_even q (loc_of_shr_record r1)) in *.
  assert (HEmin : -1074 <= E) by (unfold E; rewrite fexp64_eq; lia).
  assert (HE2 : E <= fexp Float.prec Float.emax (Zdigits2 m1 + E)).
  { destruct (Z.eq_dec q 0) as [Hz|Hnz].
    - assert (Hd : Zdigits2 m <= E - e).
      { destruct (Z_le_gt_dec (Zdigits2 m) (E - e)); auto.
        destruct (Zdigits2_shr m (E - e) Hm); lia. }
      assert (HE' : E = -1074) by (unfold E in *; rewrite fexp64_eq in *; lia).
      assert (Hone : m1 = 0 \/ m1 = 1) by lia.
      destruct Hone as [Hone|Hone]; rewrite Hone, fexp64_eq;
        [change (Zdigits2 0) with 0|change (Zdigits2 1) with 1]; lia.
    - assert (Hlt : E - e < Zdigits2 m).
      { destruct (Z_le_gt_dec (Zdigits2 m) (E - e)); try lia.
        pose proof (Zdigits2_shr_zero m (E - e) Hm). lia. }
      destruct (Zdigits2_shr m (E - e) Hm) as [_ Hd]; [lia|]. fold q in Hd.
      pose proof (Zdigits2_mono q m1). 
      assert (fexp Float.prec Float.emax (Zdigits2 q + E) = E).
      { rewrite Hd. replace (Zdigits2 m - (E - e) + E) with (Zdigits2 m + e) by lia.
        reflexivity. }
      rewrite fexp64_eq in *. lia. }
  destruct (shr_fexp_shift m1 E loc_Exact) as [Hm2 He2]; [lia|exact HE2|].
  destruct (shr_fexp Float.prec Float.emax m1 E loc_Exact) as [r2 e2].
  simpl in Hm2, He2. subst e2. rewrite Hm2. clear Hm2 r2.
  set (E2 := fexp Float.prec Float.emax (Zdigits2 m1 + E)) in *.
  destruct (Z.eq_dec m1 0) as [Hz|Hne].
  - rewrite Hz. rewrite Z.div_0_l by (apply Z.pow_nonzero; lia). simpl.
    split; auto. lia.
  - assert (Hm1pos : 0 < m1) by lia.
    assert (Hm2 : 0 < m1 / 2 ^ (E2 - E) /\
                  Zdigits2 (m1 / 2 ^ (E2 - E)) = Zdigits2 m1 - (E2 - E)).
    { apply Zdigits2_shr; auto. pose proof (Zdigits2_pos m1 Hm1pos).
      unfold E2 in *. rewrite fexp64_eq in *. lia. }
    destruct Hm2 as [Hpos Hdig].
    destruct (m1 / 2 ^ (E2 - E)) as [|m2|m2] eqn:Em2; try lia.
    destruct (E2 <=? Float.emax - Float.prec) eqn:Ebound; simpl; auto.
    split; auto. split; [|split; [lia|]].
    + unfold bounded, canonical_mantissa. rewrite Ebound, andb_true_r.
      apply Z.eqb_eq. change (Z.pos (digits2_pos m2)) with (Zdigits2 (Z.pos m2)).
      rewrite Hdig. replace (Zdigits2 m1 - (E2 - E) + E2) with (Zdigits2 m1 + E) by lia.
      reflexivity.
    + intros HEq. rewrite HEq, Z.sub_diag, Z.div_1_r in Em2. lia.
Qed.

Lemma iter_xO m d : Zpos (Pos.iter xO m d) = Zpos m * 2 ^ Zpos d.
Proof.
  induction d as [|d IH] using Pos.peano_ind.
  - simpl. lia.
  - rewrite Pos.iter_succ, Pos2Z.inj_xO, IH, Pos2Z.inj_succ, Z.pow_succ_r by lia.
    lia.
Qed.

Lemma shl_align_spec mx ex ex' :
  snd (shl_align mx ex ex') = Z.min ex ex' /\
  Zpos (fst (shl_align mx ex ex')) = Zpos mx * 2 ^ (ex - Z.min ex ex').
Proof.
  unfold shl_align. destruct (ex' - ex) as [|d|d] eqn:E; cbn [fst snd].
  - replace (Z.min ex ex') with ex by lia. rewrite Z.sub_diag, Z.pow_0_r. lia.
  - replace (Z.min ex ex') with ex by lia. rewrite Z.sub_diag, Z.pow_0_r. lia.
  - replace (Z.min ex ex') with ex' by lia. rewrite iter_xO.
    split; auto. f_equal. f_equal. lia.
Qed.

Lemma binary_round_spec m e :
  let E := fexp Float.prec Float.emax (Zdigits2 (Zpos m) + e) in
  round_spec (Zpos m * 2 ^ (e - Z.min e E) / 2 ^ (E - Z.min e E)) E
    (binary_round Float.prec Float.emax false m e).
Proof.
  intros E. unfold binary_round.
  change (Z.pos (digits2_pos m)) with (Zdigits2 (Zpos m)). fold E.
  destruct (shl_align_spec m e E) as [He Hm].
  destruct (shl_align m e E) as [mz ez]. cbn [fst snd] in He, Hm. subst ez.
  assert (Hd : Zdigits2 (Zpos mz) + Z.min e E = Zdigits2 (Zpos m) + e).
  { rewrite Hm, Zdigits2_shl by lia. lia. }
  pose proof (binary_round_aux_spec (Zpos mz) (Z.min e E)) as Hs.
  rewrite Hd in Hs. fold E in Hs. rewrite <- Hm. apply Hs; lia.
Qed.

Lemma float_add_finite mx ex my ey :
  canonical_mantissa Float.prec Float.emax mx ex = true ->
  let x := S754_finite false mx ex in
  let r := Float.add x (S754_finite false my ey) in
  Float.valid r /\ Float.is_nan r = false /\
  Float.lt r Float.zero = false /\ Float.lt r x = false.
Proof.
  intros Hcan x r.
  unfold canonical_mantissa in Hcan. apply Z.eqb_eq in Hcan.
  change (Z.pos (digits2_pos mx)) with (Zdigits2 (Zpos mx)) in Hcan.
  unfold r, x, Float.add, SFadd.
  destruct (shl_align_spec mx ex (Z.min ex ey)) as [_ Hx].
  destruct (shl_align_spec my ey (Z.min ex ey)) as [_ Hy].
  set (ez := Z.min ex ey) in *.
  replace (Z.min ex ez) with ez in Hx by lia.
  replace (Z.min ey ez) with ez in Hy by lia.
  set (mx' := fst (shl_align mx ex ez)) in *.
  set (my' := fst (shl_align my ey ez)) in *.
  simpl cond_Zopp.
  change (Zpos mx' + Zpos my') with (Zpos (mx' + my')).
  unfold binary_normalize.
  pose proof (binary_round_spec (mx' + my') ez) as Hs. cbv zeta in Hs.
  set (M := Zpos (mx' + my')) in *.
  set (E := fexp Float.prec Float.emax (Zdigits2 M + ez)) in *.
  assert (HM : Zpos mx * 2 ^ (ex - ez) <= M) by (unfold M; lia).
  assert (Hp : 0 < 2 ^ (ex - ez)) by (apply Z.pow_pos_nonneg; lia).
  assert (HdM : Zdigits2 (Zpos mx) + (ex - ez) <= Zdigits2 M).
  { rewrite <- Zdigits2_shl by lia. apply Zdigits2_mono; lia. }
  assert (HE : ex <= E).
  { unfold E. rewrite fexp64_eq in *. lia. }
  replace (Z.min ez E) with ez in Hs by lia.
  rewrite Z.sub_diag, Z.mul_1_r in Hs.
  assert (Hq : 0 < M / 2 ^ (E - ez)).
  { destruct (Z.eq_dec E ex) as [->|Hne].
    - apply Z.lt_le_trans with (Zpos mx); [lia|].
      apply Z.div_le_lower_bound; lia.
    - apply Zdigits2_shr; [unfold M; lia|].
      unfold E in *. rewrite fexp64_eq in *. lia. }
  destruct (binary_round Float.prec Float.emax false (mx' + my') ez)
    as [s|s| |s m2 e2]; simpl in Hs.
  - lia.
  - subst s. repeat split; reflexivity.
  - contradiction.
  - destruct Hs as (-> & Hb & He2 & Hm2).
    split; [exact Hb|]. split; [reflexivity|]. split; [reflexivity|].
    unfold Float.lt, SFltb, SFcompare.
    destruct (Z.compare_spec e2 ex) as [Heq|Hlt|Hgt]; auto; try lia.
    change (Pos.compare_cont Eq m2 mx) with (Pos.compare m2 mx).
    destruct (Pos.compare_spec m2 mx) as [?|Hlt|?]; auto.
    assert (HEex : E = ex) by lia.
    assert (Hm2' : M / 2 ^ (E - ez) <= Zpos m2) by (apply Hm2; lia).
    assert (Zpos mx <= M / 2 ^ (E - ez)).
    { apply Z.div_le_lower_bound; [apply Z.pow_pos_nonneg; lia|].
      replace (E - ez) with (ex - ez) by lia. lia. }
    lia.
Qed.

Lemma float_lt_irrefl x : Float.lt x x = false.
Proof.
  destruct (Float.is_nan x) eqn:E; [now destruct x|].
  apply float_lt_false_rank; auto.
  destruct (float_rank x) as [[a b] c]. simpl. lia.
Qed.

Lemma float_add_nonneg (x y : Float.t) :
  Float.valid x -> Float.valid y ->
  Float.lt x Float.zero = false -> Float.lt y Float.zero = false ->
  Float.valid (Float.add x y) /\
  Float.lt (Float.add x y) Float.zero = false /\
  Float.lt (Float.add x y) x = false /\
  (Float.is_nan x = false -> Float.is_nan y = false ->
   Float.is_nan (Float.add x y) = false).
Proof.
  intros Vx Vy Hx Hy.
  destruct x as [sx|[]| |[] mx ex]; try discriminate Hx;
    destruct y as [sy|[]| |[] my ey]; try discriminate Hy;
    try (destruct sx); try (destruct sy);
    try (repeat split; solve [reflexivity | assumption | discriminate
                              | apply float_lt_irrefl]).
  unfold Float.valid, valid_binary, bounded in Vx.
  apply andb_true_iff in Vx. destruct Vx as [Hcan _].
  destruct (float_add_finite mx ex my ey Hcan) as (H1 & H2 & H3 & H4).
  repeat split; auto.
Qed.

Lemma float_le_not_lt (a b : Float.t) :
  Float.is_nan a = false -> Float.is_nan b = false ->
  Float.le a b = negb (Float.lt b a).
Proof.
  intros Ha Hb.
  pose proof (float_compare_rank a b Ha Hb) as Hab.
  pose proof (float_compare_rank b a Hb Ha) as Hba.
  unfold Float.le, Float.lt, SFleb, SFltb.
  destruct (float_rank a) as [[a1 a2] a3], (float_rank b) as [[b1 b2] b3].
  destruct (SFcompare a b) as [[]|], (SFcompare b a) as [[]|];
    simpl in *; auto; lia.
Qed.

(** ** Values never negative, never decreased *)

Lemma stored_add b x y :
  stored b x -> stored b y ->
  stored b (Float.add x y) /\ Float.lt (Float.add x y) x = false.
Proof.
  intros [[Vx Nx] Hx] [[Vy Ny] Hy].
  destruct (float_add_nonneg x y Vx Vy Hx Hy) as (V & H0 & Hlt & Hnan).
  repeat split; auto.
Qed.

Lemma stored_le b x : stored b x -> b = true -> Float.le Float.zero x = true.
Proof.
  intros [[_ Nx] Hx] Hb. rewrite float_le_not_lt; auto. now rewrite Hx.
Qed.

Lemma stored_zero b : stored b Float.zero.
Proof. repeat split; auto. Qed.

Lemma purchase_stored b self :
  purchase_reachable b self -> stored b (Purchase.amount self).
Proof.
  induction 1 as [user country amount self Hin Hinit|fee self Hin Hr IH].
  - unfold Purchase.__init__ in Hinit.
    destruct (negb (truthy (strip user))); [discriminate|].
    destruct (Float.lt amount Float.zero) eqn:E; [discriminate|].
    inversion Hinit; subst. simpl. split; assumption.
  - unfold Purchase.apply_fee.
    destruct (Float.lt fee Float.zero) eqn:E; simpl; auto.
    apply stored_add; auto. split; assumption.
Qed.

Lemma apply_fee_not_below b self fee :
  purchase_reachable b self -> input b fee ->
  Float.lt (Purchase.amount (snd (Purchase.apply_fee fee self)))
           (Purchase.amount self) = false.
Proof.
  intros Hr Hin. pose proof (purchase_stored b self Hr) as Hs.
  unfold Purchase.apply_fee.
  destruct (Float.lt fee Float.zero) eqn:E; simpl.
  - apply float_lt_irrefl.
  - apply (stored_add b); auto. split; assumption.
Qed.

Lemma values_set {V} (P : V -> Prop) (d : Dict.t V) k v :
  Forall P (Dict.values d) -> P v -> Forall P (Dict.values (Dict.set d k v)).
Proof.
  unfold Dict.values. induction d as [|[k' v'] d IH]; simpl; intros Hall Hv.
  - repeat constructor. assumption.
  - inversion Hall; subst.
    destruct (String.eqb k' k); simpl; constructor; auto.
Qed.

Lemma values_get {V} (P : V -> Prop) (d : Dict.t V) k dflt :
  Forall P (Dict.values d) -> P dflt -> P (Dict.get d k dflt).
Proof.
  unfold Dict.values. induction d as [|[k' v'] d IH]; simpl; intros Hall Hd; auto.
  inversion Hall; subst. destruct (String.eqb k' k); auto.
Qed.

Lemma ledger_stored b country totals :
  ledger_reachable b country totals -> Forall (stored b) (Dict.values totals).
Proof.
  induction 1 as [|totals purchase Hr IH Hp]; [constructor|].
  unfold spend_step. destruct (Purchase.is_in_country purchase country); auto.
  apply values_set; auto.
  apply stored_add; [|now apply purchase_stored].
  apply values_get; auto. apply stored_zero.
Qed.

Lemma spend_step_not_below b country totals purchase key :
  ledger_reachable b country totals -> purchase_reachable b purchase ->
  Float.lt (Dict.get (spend_step country totals purchase) key Float.zero)
           (Dict.get totals key Float.zero) = false.
Proof.
  intros Hl Hp. unfold spend_step.
  destruct (Purchase.is_in_country purchase country);
    [|apply float_lt_irrefl].
  destruct (String.eqb_spec (Purchase.user purchase) key) as [->|Hne].
  - rewrite get_set_same. apply (stored_add b).
    + apply values_get; [now apply ledger_stored with country|apply stored_zero].
    + now apply purchase_stored.
  - rewrite get_set_other by assumption. apply float_lt_irrefl.
Qed.

Lemma parse_purchases_reachable b (lines : list line) : forall purchases,
  Forall (fun r : line => input b (snd r)) lines ->
  parse_purchases lines = Ok purchases ->
  Forall (purchase_reachable b) purchases.
Proof.
  induction lines as [|[[user country] amount] rest IH]; intros purchases Hall E.
  - inversion E. constructor.
  - simpl in E. inversion Hall as [|? ? Hin Hrest]; subst. simpl in Hin.
    destruct (Purchase.__init__ (strip user) (strip country) amount) as [p|] eqn:Ep;
      [|discriminate].
    simpl in E. destruct (parse_purchases rest) as [ps|]; [|discriminate].
    inversion E; subst. constructor; auto.
    eapply purchase_init; eassumption.
Qed.

Lemma total_spend_reachable b purchases country :
  Forall (purchase_reachable b) purchases ->
  ledger_reachable b country (total_spend_by_user purchases country).
Proof.
  unfold total_spend_by_user.
  assert (Hgen : forall totals,
            ledger_reachable b country totals ->
            Forall (purchase_reachable b) purchases ->
            ledger_reachable b country
              (fold_left (spend_step country) purchases totals)).
  { induction purchases as [|p ps IH]; intros totals Ht Hall; simpl; auto.
    inversion Hall; subst. apply IH; auto. now constructor. }
  apply Hgen. constructor.
Qed.

Lemma counter_values_nonneg self :
  counter_reachable self ->
  Forall (fun v => 0 <= v) (Dict.values (Counter.words self)).
Proof.
  induction 1 as [|item n self Hr IH]; [constructor|].
  unfold Counter.add. destruct (n <? 1) eqn:E; simpl; auto.
  apply Z.ltb_ge in E. apply values_set; auto.
  assert (0 <= Dict.get (Counter.words self) item 0); [|lia].
  apply values_get with (P := fun v => 0 <= v); auto. lia.
Qed.

Lemma counter_wf self : counter_reachable self -> Dict.wf (Counter.words self).
Proof.
  induction 1 as [|item n self Hr IH]; [constructor|].
  unfold Counter.add. destruct (n <? 1); simpl; auto. now apply wf_set.
Qed.

Lemma ledger_wf b country totals :
  ledger_reachable b country totals -> Dict.wf totals.
Proof.
  induction 1 as [|totals purchase Hr IH Hp]; [constructor|].
  unfold spend_step. destruct (Purchase.is_in_country purchase country); auto.
  now apply wf_set.
Qed.

Lemma counter_add_not_below self item n key :
  Counter.count self key <= Counter.count (snd (Counter.add item n self)) key.
Proof.
  destruct (Z.ltb_spec n 1) as [Hlt|Hge].
  - unfold Counter.add. apply Z.ltb_lt in Hlt. rewrite Hlt. simpl. lia.
  - rewrite count_add by assumption. destruct (String.eqb item key); lia.
Qed.

(** C6, as amended.  On the int side every value of a reachable counter is
    at least 0 and [add] never lowers a count.  On the float side, for
    purchases and ledgers reached with amounts and fees that are numbers,
    every stored value is at least zero and neither [apply_fee] nor a step of
    the aggregation lowers one.  NaN passes the guards [amount < 0] and
    [fee < 0]; with NaN allowed in, a stored value is still never below zero
    and never below the value it replaces.  The ledger built from records is
    a reachable ledger. *)
Theorem C6_values_never_negative_never_decreased :
  (forall self,
     counter_reachable self ->
     Forall (fun v => 0 <= v) (Dict.values (Counter.words self))) /\
  (forall self item n key,
     Counter.count self key <= Counter.count (snd (Counter.add item n self)) key) /\
  (forall b self,
     purchase_reachable b self ->
     Float.lt (Purchase.amount self) Float.zero = false /\
     (b = true -> Float.le Float.zero (Purchase.amount self) = true)) /\
  (forall b self fee,
     purchase_reachable b self -> input b fee ->
     let amount' := Purchase.amount (snd (Purchase.apply_fee fee self)) in
     Float.lt amount' (Purchase.amount self) = false /\
     (b = true -> Float.le (Purchase.amount self) amount' = true)) /\
  (forall b country totals,
     ledger_reachable b country totals ->
     Forall (fun v => Float.lt v Float.zero = false /\
                      (b = true -> Float.le Float.zero v = true))
       (Dict.values totals)) /\
  (forall b country totals purchase key,
     ledger_reachable b country totals -> purchase_reachable b purchase ->
     let old := Dict.get totals key Float.zero in
     let new := Dict.get (spend_step country totals purchase) key Float.zero in
     Float.lt new old = false /\ (b = true -> Float.le old new = true)) /\
  (forall b records category ledger,
     Forall (fun r : line => input b (snd r)) records ->
     build_filtered_ledger records category = Ok ledger ->
     ledger_reachable b category ledger).
Proof.
  split; [exact counter_values_nonneg|].
  split; [exact counter_add_not_below|].
  split; [|split; [|split; [|split]]].
  - intros b self Hr. pose proof (purchase_stored b self Hr) as Hs.
    split; [apply Hs|]. now apply stored_le.
  - intros b self fee Hr Hin amount'.
    pose proof (apply_fee_not_below b self fee Hr Hin) as Hlt.
    split; [exact Hlt|]. intros Hb.
    destruct (purchase_stored b self Hr) as [[_ Hn] _].
    destruct (purchase_stored b _ (purchase_fee b fee self Hin Hr)) as [[_ Hn'] _].
    unfold amount'. rewrite float_le_not_lt by auto. now rewrite Hlt.
  - intros b country totals Hr.
    apply (Forall_impl _ (P := stored b)); [|now apply ledger_stored with country].
    intros v Hs. split; [apply Hs|]. now apply stored_le.
  - intros b country totals purchase key Hl Hp old new.
    pose proof (spend_step_not_below b country totals purchase key Hl Hp) as Hlt.
    split; [exact Hlt|]. intros Hb.
    assert (Hold : stored b old).
    { apply values_get; [now apply ledger_stored with country|apply stored_zero]. }
    assert (Hnew : stored b new).
    { apply values_get; [|apply stored_zero].
      apply ledger_stored with country. now constructor. }
    destruct Hold as [[_ Hn] _], Hnew as [[_ Hn'] _].
    rewrite float_le_not_lt by auto. unfold old, new. now rewrite Hlt.
  - intros b records category ledger Hall E.
    unfold build_filtered_ledger in E.
    destruct (parse_purchases records) as [purchases|] eqn:Ep; [|discriminate].
    simpl in E. inversion E; subst.
    apply total_spend_reachable.
    eapply parse_purchases_reachable; eassumption.
Qed.

(** C6 as stated fails on NaN: the constructor accepts it, and the amount
    stored is then not at least zero. *)
Lemma C6_nan_counterexample :
  ~ (forall self,
       purchase_reachable false self ->
       Float.le Float.zero (Purchase.amount self) = true).
Proof.
  intros Hall.
  specialize (Hall (Purchase.mk "alice" "UK" Float.nan)).
  assert (Hr : purchase_reachable false (Purchase.mk "alice" "UK" Float.nan)).
  { apply purchase_init with (user := "alice") (country := "UK")
                             (amount := Float.nan).
    - split; [reflexivity|discriminate].
    - reflexivity. }
  specialize (Hall Hr). discriminate.
Qed.

(** * Further properties *)

(** ** The counter, one call at a time *)

Lemma keys_in_get {V} (d : Dict.t V) k v dflt :
  Dict.wf d -> In (k, v) d -> Dict.get d k dflt = v.
Proof.
  unfold Dict.wf, Dict.keys.
  induction d as [|[k' v'] d IH]; simpl; intros Hnd Hin; [contradiction|].
  inversion Hnd as [|? ? Hk Hnd']; subst.
  destruct Hin as [E|Hin].
  - inversion E; subst. now rewrite String.eqb_refl.
  - destruct (String.eqb_spec k' k) as [->|Hne]; auto.
    exfalso. apply Hk. change k with (fst (k, v)). now apply in_map.
Qed.

Lemma get_in_keys {V} (d : Dict.t V) k dflt :
  In k (Dict.keys d) -> In (k, Dict.get d k dflt) d.
Proof.
  unfold Dict.keys. induction d as [|[k' v'] d IH]; simpl; [tauto|].
  intros [E|Hin].
  - subst. rewrite String.eqb_refl. now left.
  - destruct (String.eqb_spec k' k) as [->|Hne]; [now left|]. right. auto.
Qed.

Lemma existsb_eqb_in k (l : list string) :
  existsb (String.eqb k) l = true <-> In k l.
Proof.
  rewrite existsb_exists. split.
  - intros (x & Hin & E). apply String.eqb_eq in E. now subst.
  - intros Hin. exists k. split; auto. apply String.eqb_refl.
Qed.

(** X1. On any counter, [add(item, n)] with [n >= 1] raises nothing, raises
    the count of [item] by exactly [n], leaves the count of every other word
    as it was, and neither removes nor reorders a word: a word already there
    keeps its place, a new word goes to the end. *)
Theorem X1_add_frame (self : Counter.t) (item : string) (n : Z) :
  1 <= n ->
  let self' := snd (Counter.add item n self) in
  fst (Counter.add item n self) = Ok tt /\
  Counter.count self' item = Counter.count self item + n /\
  (forall key, key <> item -> Counter.count self' key = Counter.count self key) /\
  Dict.keys (Counter.words self') =
    (if existsb (String.eqb item) (Dict.keys (Counter.words self))
     then Dict.keys (Counter.words self)
     else Dict.keys (Counter.words self) ++ [item])%list.
Proof.
  intros Hn self'. unfold self'.
  pose proof (count_add item n self) as Hc.
  rewrite add_ok in * by assumption. simpl in *.
  split; [reflexivity|]. split; [|split].
  - rewrite Hc by assumption. now rewrite String.eqb_refl.
  - intros key Hne. rewrite Hc by assumption.
    destruct (String.eqb_spec item key); [congruence|lia].
  - apply keys_set.
Qed.

Lemma X1_add_frame_witness :
  1 <= 2 /\
  Counter.count (snd (Counter.add "cat" 2 (Counter.mk [("the", 3); ("cat", 1)]))) "cat" = 3 /\
  Dict.keys (Counter.words (snd (Counter.add "hat" 2 (Counter.mk [("the", 3); ("cat", 1)])))) =
    ["the"; "cat"; "hat"].
Proof.
  split; [lia|]. split.
  - refine (proj1 (proj2 (X1_add_frame (Counter.mk [("the", 3); ("cat", 1)]) "cat" 2 _))).
    lia.
  - refine (proj2 (proj2 (proj2 (X1_add_frame (Counter.mk [("the", 3); ("cat", 1)]) "hat" 2 _)))).
    lia.
Defined.

Lemma ranks_before_antisym_int (x y : string * Z) :
  ranks_before x y -> ranks_before y x -> x = y.
Proof.
  destruct x as [kx vx], y as [ky vy]. unfold ranks_before. simpl.
  intros [H1|[E1 L1]] [H2|[E2 L2]];
    try apply Z.ltb_lt in H1; try apply Z.ltb_lt in H2;
    try apply Z.eqb_eq in E1; try apply Z.eqb_eq in E2; try lia.
  subst. f_equal. now apply String.leb_antisym.
Qed.

(** X2. On a non-empty counter whose words are distinct, as they are in
    every counter built by [add], [most_common] returns a word of the
    counter with its count; no word has a greater count, and among the words
    with that count it is the first in alphabetical order. *)
Theorem X2_most_common_spec (self : Counter.t) :
  Dict.wf (Counter.words self) ->
  Counter.words self <> [] ->
  exists word count,
    Counter.most_common self = Ok (word, count) /\
    In word (Dict.keys (Counter.words self)) /\
    Counter.count self word = count /\
    (forall key, In key (Dict.keys (Counter.words self)) ->
       Counter.count self key <= count) /\
    (forall key, In key (Dict.keys (Counter.words self)) ->
       Counter.count self key = count -> String.leb word key = true).
Proof.
  intros Hwf Hne.
  destruct (ranking_head _ Hne) as ([w c] & rest & E & Hin & Hbest).
  exists w, c. split; [eapply most_common_is_ranking_head; eassumption|].
  split; [change w with (fst (w, c)); now apply in_map|].
  split; [unfold Counter.count; now apply keys_in_get|].
  split.
  - intros key Hkey. unfold Counter.count.
    pose proof (get_in_keys _ key 0 Hkey) as Hk.
    destruct (Hbest _ Hk) as [Hlt|[Heq _]]; simpl in *.
    + apply Z.ltb_lt in Hlt. lia.
    + apply Z.eqb_eq in Heq. lia.
  - intros key Hkey Hc. unfold Counter.count in Hc.
    pose proof (get_in_keys _ key 0 Hkey) as Hk. rewrite Hc in Hk.
    destruct (Hbest _ Hk) as [Hlt|[_ Hle]]; simpl in *; auto.
    apply Z.ltb_lt in Hlt. lia.
Qed.

Lemma X2_most_common_spec_witness :
  Dict.wf [("the", 3); ("in", 1); ("cat", 3)] /\
  exists word count,
    Counter.most_common (Counter.mk [("the", 3); ("in", 1); ("cat", 3)]) =
      Ok (word, count) /\
    In word ["the"; "in"; "cat"] /\ count = 3.
Proof.
  assert (Hwf : Dict.wf [("the", 3); ("in", 1); ("cat", 3)]).
  { unfold Dict.wf. simpl. repeat constructor; simpl; intuition discriminate. }
  split; [exact Hwf|].
  destruct (X2_most_common_spec (Counter.mk [("the", 3); ("in", 1); ("cat", 3)]) Hwf)
    as (word & count & E & Hin & Hc & _).
  - discriminate.
  - exists word, count. split; [exact E|]. split; [exact Hin|].
    vm_compute in E. inversion E. reflexivity.
Defined.

(** X3. [most_common] does not depend on the order in which the words were
    first added: two counters holding the same entries in any order give the
    same answer, or both raise. *)
Theorem X3_most_common_order_independent (a b : Counter.t) :
  Permutation (Counter.words a) (Counter.words b) ->
  Counter.most_common a = Counter.most_common b.
Proof.
  intros Hp.
  destruct (Counter.words a) as [|ea da] eqn:Ea.
  - apply Permutation_nil in Hp.
    unfold Counter.most_common. now rewrite Ea, Hp.
  - assert (Hna : Counter.words a <> []) by (rewrite Ea; discriminate).
    assert (Hnb : Counter.words b <> []).
    { intros E. rewrite E in Hp. apply Permutation_sym, Permutation_nil in Hp.
      discriminate. }
    rewrite <- Ea in Hp.
    destruct (ranking_head _ Hna) as (ta & ra & Eta & Hia & Hba).
    destruct (ranking_head _ Hnb) as (tb & rb & Etb & Hib & Hbb).
    rewrite (most_common_is_ranking_head _ _ _ Eta).
    rewrite (most_common_is_ranking_head _ _ _ Etb).
    f_equal. apply ranks_before_antisym_int.
    + apply Hba. apply (Permutation_in _ (Permutation_sym Hp)). exact Hib.
    + apply Hbb. apply (Permutation_in _ Hp). exact Hia.
Qed.

Lemma X3_most_common_order_independent_witness :
  Permutation [("the", 3); ("cat", 3)] [("cat", 3); ("the", 3)] /\
  Counter.most_common (Counter.mk [("the", 3); ("cat", 3)]) =
  Counter.most_common (Counter.mk [("cat", 3); ("the", 3)]).
Proof.
  assert (Hp : Permutation [("the", 3); ("cat", 3)] [("cat", 3); ("the", 3)])
    by apply perm_swap.
  split; [exact Hp|].
  exact (X3_most_common_order_independent
           (Counter.mk [("the", 3); ("cat", 3)])
           (Counter.mk [("cat", 3); ("the", 3)]) Hp).
Defined.

(** ** Runs of [add] *)

Lemma sum_values_set (d : Dict.t Z) k n :
  sum_values (Dict.set d k (Dict.get d k 0 + n)) = sum_values d + n.
Proof.
  unfold sum_values, Dict.values.
  induction d as [|[k' v'] d IH]; simpl; [lia|].
  destruct (String.eqb k' k); simpl; lia.
Qed.

Lemma add_all_total calls : forall self,
  Forall (fun c => 1 <= snd c) calls ->
  sum_values (Counter.words (snd (add_all calls self))) =
  sum_values (Counter.words self) + fold_right Z.add 0 (map snd calls).
Proof.
  induction calls as [|[item n] rest IH]; intros self Hall; simpl; [lia|].
  inversion Hall as [|? ? Hn Hrest]; subst. simpl in Hn.
  rewrite add_ok by assumption.
  rewrite IH by assumption. simpl. unfold Counter.count.
  rewrite sum_values_set. lia.
Qed.

(** X4. A run of [add] calls with amounts of at least 1, on any counter,
    raises nothing and raises the sum of all counts by exactly the sum of
    the amounts: no call loses or duplicates a count. *)
Theorem X4_add_all_conserves_total (calls : list (string * Z)) (self : Counter.t) :
  Forall (fun c => 1 <= snd c) calls ->
  fst (add_all calls self) = Ok tt /\
  sum_values (Counter.words (snd (add_all calls self))) =
  sum_values (Counter.words self) + fold_right Z.add 0 (map snd calls).
Proof.
  intros Hall. split.
  - apply add_all_ok. assumption.
  - now apply add_all_total.
Qed.

Lemma X4_add_all_conserves_total_witness :
  Forall (fun c => 1 <= snd c) [("the", 2); ("cat", 1); ("the", 4)] /\
  sum_values
    (Counter.words
       (snd (add_all [("the", 2); ("cat", 1); ("the", 4)] (Counter.mk [("hat", 5)])))) =
  12.
Proof.
  assert (H : Forall (fun c : string * Z => 1 <= snd c)
                [("the", 2); ("cat", 1); ("the", 4)]).
  { repeat constructor; simpl; lia. }
  split; [exact H|].
  exact (proj2 (X4_add_all_conserves_total
                  [("the", 2); ("cat", 1); ("the", 4)] (Counter.mk [("hat", 5)]) H)).
Defined.

(** ** The loop of [main] in [coursework-1/main.py] *)

Lemma add_all_nonempty calls : forall self,
  Forall (fun c => 1 <= snd c) calls ->
  calls <> [] \/ Counter.words self <> [] ->
  Counter.words (snd (add_all calls self)) <> [].
Proof.
  induction calls as [|[item n] rest IH]; intros self Hall Hne; simpl.
  - destruct Hne; [congruence|assumption].
  - inversion Hall as [|? ? Hn Hrest]; subst. simpl in Hn.
    rewrite add_ok by assumption. apply IH; auto.
    right. simpl. destruct (Counter.words self) as [|[k v] d]; simpl.
    + discriminate.
    + destruct (String.eqb k item); discriminate.
Qed.

Lemma ones_total {A} (f : A -> string) (l : list A) :
  fold_right Z.add 0 (map snd (map (fun x => (f x, 1)) l)) =
  Z.of_nat (List.length l).
Proof.
  induction l as [|x l IH]; [reflexivity|].
  cbn [map fold_right snd List.length]. rewrite Nat2Z.inj_succ. lia.
Qed.

Lemma ones_valid {A} (f : A -> string) (l : list A) :
  Forall (fun c : string * Z => 1 <= snd c) (map (fun x => (f x, 1)) l).
Proof. apply Forall_forall. intros c Hin. apply in_map_iff in Hin.
  destruct Hin as (x & <- & _). simpl. lia. Qed.

Lemma total_for_ones_nonneg key (f : string -> string) (l : list string) :
  0 <= total_for key (map (fun w => (f w, 1)) l).
Proof.
  induction l as [|w l IH]; cbn [map total_for]; [lia|].
  destruct (String.eqb (f w) key); lia.
Qed.

Lemma total_for_ones_in key (f : string -> string) (l : list string) x :
  In x l -> f x = key -> 1 <= total_for key (map (fun w => (f w, 1)) l).
Proof.
  induction l as [|w l IH]; cbn [map total_for In]; [tauto|].
  pose proof (total_for_ones_nonneg key f l).
  intros [->|Hin] E.
  - rewrite E, String.eqb_refl. lia.
  - specialize (IH Hin E). destruct (String.eqb (f w) key); lia.
Qed.

(** X5. Whatever the text, the loop of [main] raises nothing, and the counts
    it leaves add up to the number of words of the text.  [most_common] then
    raises [ValueError] exactly when the text has no word; a word made of
    punctuation only is counted under the empty string. *)
Theorem X5_count_words (text : string) :
  fst (count_words text) = Ok tt /\
  sum_values (Counter.words (snd (count_words text))) =
    Z.of_nat (List.length (str_split (lower text))) /\
  (str_split (lower text) = [] <->
   Counter.most_common (snd (count_words text)) =
     Raise (ValueError "Counter is empty")) /\
  (forall word,
     In word (str_split (lower text)) ->
     strip_chars ".,!?" word = EmptyString ->
     1 <= Counter.count (snd (count_words text)) EmptyString).
Proof.
  unfold count_words.
  set (calls := map (fun word => (strip_chars ".,!?" word, 1))
                  (str_split (lower text))).
  assert (Hvalid : Forall (fun c : string * Z => 1 <= snd c) calls)
    by apply ones_valid.
  destruct (add_all_ok calls Counter.__init__ Hvalid) as [Hok Hcount].
  split; [exact Hok|]. split; [|split].
  - rewrite add_all_total by assumption. unfold calls. rewrite ones_total.
    reflexivity.
  - split.
    + intros E. unfold calls. rewrite E. reflexivity.
    + intros E. destruct (str_split (lower text)) as [|w ws] eqn:Ew; auto.
      exfalso.
      assert (Hne : Counter.words (snd (add_all calls Counter.__init__)) <> []).
      { apply add_all_nonempty; auto. left. unfold calls. discriminate. }
      destruct (ranking_head _ Hne) as (t & rest & Et & _).
      rewrite (most_common_is_ranking_head _ _ _ Et) in E. discriminate.
  - intros word Hin Hstrip. rewrite Hcount.
    change (Counter.count Counter.__init__ EmptyString) with 0.
    pose proof (total_for_ones_in EmptyString (strip_chars ".,!?") _ word Hin Hstrip)
      as Hgen.
    unfold calls. lia.
Qed.

(** ** Purchases *)

Lemma init_ok_fields (user country : string) (amount : Float.t) (self : Purchase.t) :
  Purchase.__init__ user country amount = Ok self ->
  self = Purchase.mk (strip user) (strip country) amount /\
  truthy (strip user) = true /\
  Float.lt amount Float.zero = false.
Proof.
  unfold Purchase.__init__.
  destruct (truthy (strip user)) eqn:Eu; simpl; [|discriminate].
  destruct (Float.lt amount Float.zero) eqn:Ea; [discriminate|].
  intros E. inversion E; subst. auto.
Qed.

(** X6. A purchase that the constructor returns holds the stripped user,
    which is not empty and has no whitespace left at either end, the
    stripped country, and the amount as given, which is not below zero; and
    [apply_fee], accepted or not, never changes the user or the country. *)
Theorem X6_purchase_fields (user country : string) (amount : Float.t)
    (self : Purchase.t) :
  Purchase.__init__ user country amount = Ok self ->
  Purchase.user self = strip user /\
  truthy (Purchase.user self) = true /\
  strip (Purchase.user self) = Purchase.user self /\
  Purchase._country self = strip country /\
  Purchase.amount self = amount /\
  Float.lt (Purchase.amount self) Float.zero = false /\
  (forall fee,
     Purchase.user (snd (Purchase.apply_fee fee self)) = Purchase.user self /\
     Purchase._country (snd (Purchase.apply_fee fee self)) =
       Purchase._country self).
Proof.
  intros E. destruct (init_ok_fields _ _ _ _ E) as (-> & Hu & Ha). simpl.
  repeat split; auto using strip_idem;
    unfold Purchase.apply_fee; simpl; destruct (Float.lt fee Float.zero);
    reflexivity.
Qed.

Lemma X6_purchase_fields_witness :
  Purchase.__init__ "  alice " " UK" (Float.dyadic 5 1) =
    Ok (Purchase.mk "alice" "UK" (Float.dyadic 5 1)) /\
  Purchase.user (Purchase.mk "alice" "UK" (Float.dyadic 5 1)) = strip "  alice ".
Proof.
  assert (E : Purchase.__init__ "  alice " " UK" (Float.dyadic 5 1) =
              Ok (Purchase.mk "alice" "UK" (Float.dyadic 5 1)))
    by (vm_compute; reflexivity).
  split; [exact E|].
  exact (proj1 (X6_purchase_fields _ _ _ _ E)).
Defined.

(** X7. [is_in_country] compares the stripped country of the purchase with
    the query as it is given, letter case included: it holds exactly when the
    query is the stripped country, so a query with whitespace at either end
    matches no purchase. *)
Theorem X7_is_in_country_exact (user country : string) (amount : Float.t)
    (self : Purchase.t) (query : string) :
  Purchase.__init__ user country amount = Ok self ->
  (Purchase.is_in_country self query = true <-> query = strip country) /\
  (strip query <> query -> Purchase.is_in_country self query = false).
Proof.
  intros E. destruct (init_ok_fields _ _ _ _ E) as (-> & _ & _).
  unfold Purchase.is_in_country. simpl.
  assert (Hiff : String.eqb (strip country) query = true <-> query = strip country).
  { rewrite String.eqb_eq. split; congruence. }
  split; [exact Hiff|].
  intros Hq. destruct (String.eqb_spec (strip country) query) as [<-|]; auto.
  exfalso. apply Hq. apply strip_idem.
Qed.

Lemma X7_is_in_country_exact_witness :
  Purchase.__init__ "alice" " UK " (Float.dyadic 5 1) =
    Ok (Purchase.mk "alice" "UK" (Float.dyadic 5 1)) /\
  Purchase.is_in_country (Purchase.mk "alice" "UK" (Float.dyadic 5 1)) " UK " = false.
Proof.
  assert (E : Purchase.__init__ "alice" " UK " (Float.dyadic 5 1) =
              Ok (Purchase.mk "alice" "UK" (Float.dyadic 5 1)))
    by (vm_compute; reflexivity).
  split; [exact E|].
  apply (proj2 (X7_is_in_country_exact _ _ _ _ " UK " E)).
  vm_compute. discriminate.
Defined.

(** ** The text layer of [parse_purchases] *)

Lemma split_on_length sep s :
  List.length (split_on sep s) = S (count_char sep s).
Proof.
  induction s as [|c s IH]; simpl; auto.
  destruct (Ascii.eqb c sep); simpl; [now rewrite IH|].
  destruct (split_on sep s); simpl in *; [discriminate|auto].
Qed.

(** X8. A line of text that does not hold exactly two commas makes
    [parse_purchases] raise [ValueError] at the unpacking of its parts,
    whatever the parts are, whatever [float] would do with them and whatever
    lines follow; so a line that is parsed holds exactly two commas. *)
Theorem X8_parse_line_field_count (float : string -> result Float.t)
    (text : string) :
  (count_char "," text <> 2%nat -> is_value_error (parse_line float text)) /\
  (forall rest,
     count_char "," text <> 2%nat ->
     is_value_error (parse_purchases_text float (text :: rest))) /\
  (forall purchase,
     parse_line float text = Ok purchase -> count_char "," text = 2%nat).
Proof.
  pose proof (split_on_length "," text) as Hlen.
  assert (Hbad : count_char "," text <> 2%nat ->
                 is_value_error (parse_line float text)).
  { intros H. unfold parse_line.
    destruct (split_on "," text) as [|a [|b [|c [|d l]]]]; simpl in *;
      try (eexists; reflexivity); lia. }
  split; [exact Hbad|]. split.
  - intros rest Hne. destruct (Hbad Hne) as [msg E]. simpl. rewrite E.
    eexists; reflexivity.
  - intros purchase E.
    destruct (Nat.eq_dec (count_char "," text) 2) as [H|H]; [exact H|].
    destruct (Hbad H) as [msg E']. rewrite E' in E. discriminate.
Qed.

Lemma parse_line_fields (float : string -> result Float.t) text user country amount :
  fields float text (user, country, amount) ->
  parse_line float text = Purchase.__init__ (strip user) (strip country) amount.
Proof.
  intros (amount_str & Es & Ef). unfold parse_line. rewrite Es. simpl.
  now rewrite Ef.
Qed.

Lemma parse_line_ok (float : string -> result Float.t) text purchase :
  parse_line float text = Ok purchase ->
  exists record, fields float text record.
Proof.
  unfold parse_line.
  destruct (split_on "," text) as [|u [|c [|s [|d l]]]] eqn:Es; simpl;
    try discriminate.
  destruct (float (strip s)) as [a|e] eqn:Ef; simpl; [|discriminate].
  intros _. exists (u, c, a). exists s. auto.
Qed.

(** X9. The text layer refines the parsing of records.  When each line
    holds the fields of a record, parsing the lines gives what parsing the
    records gives, the purchases or the first error; and whenever parsing
    the lines succeeds, each line holds the fields of a record. *)
Theorem X9_parse_text_refines (float : string -> result Float.t)
    (lines : list string) :
  (forall records,
     Forall2 (fields float) lines records ->
     parse_purchases_text float lines = parse_purchases records) /\
  (forall purchases,
     parse_purchases_text float lines = Ok purchases ->
     exists records,
       Forall2 (fields float) lines records /\
       parse_purchases records = Ok purchases).
Proof.
  assert (Hfwd : forall records,
     Forall2 (fields float) lines records ->
     parse_purchases_text float lines = parse_purchases records).
  { intros records Hall.
    induction Hall as [|text [[user country] amount] lines records Hf Hall IH];
      simpl; auto.
    now rewrite (parse_line_fields _ _ _ _ _ Hf), IH. }
  split; [exact Hfwd|].
  clear Hfwd. induction lines as [|text lines IH]; intros purchases E.
  - exists []. split; [constructor|exact E].
  - simpl in E.
    destruct (parse_line float text) as [p|e] eqn:Ep; [|discriminate].
    destruct (parse_line_ok _ _ _ Ep) as [[[user country] amount] Hf].
    simpl in E.
    destruct (parse_purchases_text float lines) as [ps|e] eqn:Eps; [|discriminate].
    destruct (IH ps eq_refl) as (records & Hall & Er).
    exists ((user, country, amount) :: records). split; [now constructor|].
    simpl. rewrite <- (parse_line_fields _ _ _ _ _ Hf), Ep. simpl.
    rewrite Er. exact E.
Qed.

(** ** [total_spend_by_user] *)

Lemma spend_fold_filter country purchases : forall totals,
  fold_left (spend_step country) purchases totals =
  fold_left (spend_step country)
    (filter (fun p => Purchase.is_in_country p country) purchases) totals.
Proof.
  induction purchases as [|p ps IH]; intros totals; simpl; auto.
  destruct (Purchase.is_in_country p country) eqn:E; simpl.
  - apply IH.
  - rewrite <- IH. unfold spend_step at 2. now rewrite E.
Qed.

(** X10. Purchases of other countries contribute nothing to the totals:
    aggregating a list gives the dict that aggregating its purchases of the
    country alone gives, and a list with no purchase of the country gives
    the empty dict. *)
Theorem X10_total_spend_filters (purchases : list Purchase.t) (country : string) :
  total_spend_by_user purchases country =
    total_spend_by_user
      (filter (fun p => Purchase.is_in_country p country) purchases) country /\
  (Forall (fun p => Purchase.is_in_country p country = false) purchases ->
   total_spend_by_user purchases country = []).
Proof.
  split; [apply spend_fold_filter|].
  intros Hall. unfold total_spend_by_user. rewrite spend_fold_filter.
  replace (filter (fun p => Purchase.is_in_country p country) purchases)
    with (@nil Purchase.t); [reflexivity|].
  induction Hall as [|p ps Hp Hall IH]; simpl; auto. now rewrite Hp.
Qed.

Lemma spend_fold_keys country purchases : forall totals,
  Dict.wf totals ->
  Dict.wf (fold_left (spend_step country) purchases totals) /\
  forall user,
    In user (Dict.keys (fold_left (spend_step country) purchases totals)) <->
    In user (Dict.keys totals) \/
    exists p, In p purchases /\ Purchase.is_in_country p country = true /\
              Purchase.user p = user.
Proof.
  induction purchases as [|p ps IH]; intros totals Hwf; simpl.
  - split; auto. intros user. split; [tauto|]. intros [H|(p & [] & _)]; auto.
  - assert (Hwf' : Dict.wf (spend_step country totals p)).
    { unfold spend_step. destruct (Purchase.is_in_country p country); auto.
      now apply wf_set. }
    destruct (IH _ Hwf') as [Hw Hk]. split; auto.
    intros user. rewrite Hk. clear Hk IH.
    unfold spend_step.
    destruct (Purchase.is_in_country p country) eqn:E.
    + rewrite keys_set.
      destruct (existsb (String.eqb (Purchase.user p)) (Dict.keys totals)) eqn:Ex.
      * apply existsb_eqb_in in Ex. split.
        -- intros [H|(q & Hq & Hc & Hu)]; [now left|].
           right. exists q. auto.
        -- intros [H|(q & [->|Hq] & Hc & Hu)]; [now left| |].
           ++ left. now rewrite <- Hu.
           ++ right. exists q. auto.
      * rewrite in_app_iff. simpl. split.
        -- intros [[H|[H|[]]]|(q & Hq & Hc & Hu)].
           ++ now left.
           ++ right. exists p. auto.
           ++ right. exists q. auto.
        -- intros [H|(q & [->|Hq] & Hc & Hu)].
           ++ left. now left.
           ++ left. right. now left.
           ++ right. exists q. auto.
    + split.
      * intros [H|(q & Hq & Hc & Hu)]; [now left|]. right. exists q. auto.
      * intros [H|(q & [->|Hq] & Hc & Hu)]; [now left|congruence|].
        right. exists q. auto.
Qed.

(** X11. The keys of the totals are pairwise distinct, and they are exactly
    the users that have a purchase in the country. *)
Theorem X11_total_spend_keys (purchases : list Purchase.t) (country : string) :
  Dict.wf (total_spend_by_user purchases country) /\
  (forall user,
     In user (Dict.keys (total_spend_by_user purchases country)) <->
     exists p, In p purchases /\ Purchase.is_in_country p country = true /\
               Purchase.user p = user).
Proof.
  destruct (spend_fold_keys country purchases Dict.empty) as [Hw Hk];
    [constructor|].
  split; [exact Hw|]. intros user.
  unfold total_spend_by_user. rewrite Hk. simpl. tauto.
Qed.

Lemma spend_fold_get country user purchases : forall totals,
  Dict.get (fold_left (spend_step country) purchases totals) user Float.zero =
  fold_left Float.add
    (map Purchase.amount
       (filter (fun p => Purchase.is_in_country p country &&
                         String.eqb (Purchase.user p) user) purchases))
    (Dict.get totals user Float.zero).
Proof.
  induction purchases as [|p ps IH]; intros totals; simpl; auto.
  rewrite IH. unfold spend_step.
  destruct (Purchase.is_in_country p country); simpl; auto.
  destruct (String.eqb_spec (Purchase.user p) user) as [->|Hne]; simpl.
  - now rewrite get_set_same.
  - now rewrite get_set_other.
Qed.

(** X12. The total stored for a user is the float sum, taken from [0.0] in
    the order of the list, of the amounts of that user's purchases in the
    country; for a user with no such purchase the lookup with default [0.0]
    gives [0.0]. *)
Theorem X12_total_spend_values (purchases : list Purchase.t)
    (country user : string) :
  Dict.get (total_spend_by_user purchases country) user Float.zero =
  fold_left Float.add
    (map Purchase.amount
       (filter (fun p => Purchase.is_in_country p country &&
                         String.eqb (Purchase.user p) user) purchases))
    Float.zero.
Proof. unfold total_spend_by_user. now rewrite spend_fold_get. Qed.

(** ** [top_users] and the order of the dict *)

Section RankingUnique.
Context {V : Type} `{PyNumOrder V}.

Lemma ranks_strictly_before_lt (x y : string * V) :
  comparable_entry x -> comparable_entry y ->
  (ranks_strictly_before x y <-> tuple_lt (rank_key x) (rank_key y) = true).
Proof.
  intros Hx Hy. rewrite tuple_lt_rank_key by assumption.
  unfold ranks_strictly_before. rewrite orb_true_iff, andb_true_iff. tauto.
Qed.

Lemma ranks_strictly_before_asym (x y : string * V) :
  comparable_entry x -> comparable_entry y ->
  ranks_strictly_before x y -> ranks_strictly_before y x -> False.
Proof.
  intros Hx Hy Hxy Hyx.
  apply ranks_strictly_before_lt in Hxy; auto.
  apply ranks_strictly_before_lt in Hyx; auto.
  rewrite (rank_lt_asym x y Hx Hy Hxy) in Hyx. discriminate.
Qed.

(** Two strictly ranked lists with the same entries are the same list. *)
Lemma strictly_ranked_unique (l1 : list (string * V)) : forall l2,
  Forall comparable_entry l1 ->
  StronglySorted ranks_strictly_before l1 ->
  StronglySorted ranks_strictly_before l2 ->
  Permutation l1 l2 -> l1 = l2.
Proof.
  induction l1 as [|x l1 IH]; intros l2 Hc H1 H2 Hp.
  - apply Permutation_nil in Hp. now subst.
  - destruct l2 as [|y l2].
    { apply Permutation_sym, Permutation_nil in Hp. discriminate. }
    inversion Hc as [|? ? Hcx Hc1]; subst.
    inversion H1 as [|? ? H1' Hx]; subst.
    inversion H2 as [|? ? H2' Hy]; subst.
    assert (Hcy : comparable_entry y).
    { pose proof (Permutation_Forall Hp Hc) as Hc2. now inversion Hc2. }
    assert (Exy : x = y).
    { assert (Hin1 : In x (y :: l2)) by (apply (Permutation_in _ Hp); now left).
      assert (Hin2 : In y (x :: l1))
        by (apply (Permutation_in _ (Permutation_sym Hp)); now left).
      destruct Hin1 as [E|Hin1]; [now symmetry|].
      destruct Hin2 as [E|Hin2]; [assumption|].
      rewrite Forall_forall in Hx, Hy.
      exfalso. apply (ranks_strictly_before_asym x y); auto. }
    subst y. f_equal. apply IH; auto.
    now apply Permutation_cons_inv in Hp.
Qed.

Lemma ranking_strictly_sorted (totals : Dict.t V) :
  Dict.wf totals -> Forall comparable_entry totals ->
  StronglySorted ranks_strictly_before
    (sorted tuple_lt rank_key (Dict.items totals)).
Proof.
  intros Hwf Hc.
  apply StronglySorted_distinct_keys with (R := ranks_before).
  - unfold ranks_before, ranks_strictly_before.
    intros x y [Hlt|[Heq Hle]] Hne; auto. right. split; auto.
    apply str_leb_ltb_or_eq in Hle. tauto.
  - apply (Permutation_NoDup
             (Permutation_sym
                (Permutation_map fst (sorted_perm tuple_lt rank_key totals)))).
    exact Hwf.
  - now apply ranking_sorted.
Qed.

End RankingUnique.

(** X13. [top_users] does not depend on the order in which the dict holds
    its entries: two dicts with distinct keys and comparable values that
    hold the same entries give the same list, for every limit, negative ones
    included. *)
Theorem X13_top_users_order_independent {V : Type} `{PyNumOrder V}
    (a b : Dict.t V) (limit : Z) :
  Dict.wf a ->
  Forall comparable (Dict.values a) ->
  Permutation a b ->
  top_users a limit = top_users b limit.
Proof.
  intros Hwf Hc Hp. apply comparable_entries in Hc.
  assert (Hwfb : Dict.wf b).
  { unfold Dict.wf, Dict.keys in *.
    now apply (Permutation_NoDup (Permutation_map fst Hp)). }
  assert (Hcb : Forall comparable_entry b) by now apply (Permutation_Forall Hp).
  unfold top_users. f_equal.
  apply strictly_ranked_unique.
  - apply (Permutation_Forall (Permutation_sym (sorted_perm _ _ _))), Hc.
  - now apply ranking_strictly_sorted.
  - now apply ranking_strictly_sorted.
  - unfold Dict.items.
    rewrite (sorted_perm tuple_lt rank_key a), (sorted_perm tuple_lt rank_key b).
    exact Hp.
Qed.

Lemma X13_top_users_order_independent_witness :
  Dict.wf [("bob", 3); ("alice", 3); ("carla", 5)] /\
  Permutation [("bob", 3); ("alice", 3); ("carla", 5)]
              [("carla", 5); ("bob", 3); ("alice", 3)] /\
  top_users [("bob", 3); ("alice", 3); ("carla", 5)] 2 =
  top_users [("carla", 5); ("bob", 3); ("alice", 3)] 2.
Proof.
  assert (Hwf : Dict.wf [("bob", 3); ("alice", 3); ("carla", 5)]).
  { unfold Dict.wf. simpl. repeat constructor; simpl; intuition discriminate. }
  assert (Hp : Permutation [("bob", 3); ("alice", 3); ("carla", 5)]
                           [("carla", 5); ("bob", 3); ("alice", 3)]).
  { apply Permutation_sym. apply (Permutation_cons_app [_; _] []). apply Permutation_refl. }
  split; [exact Hwf|]. split; [exact Hp|].
  apply (X13_top_users_order_independent _ _ 2 Hwf); [|exact Hp].
  repeat constructor.
Defined.

(** ** The run of [main] in [lab4.py], for any records, fee and country *)

Lemma apply_fee_at_0 fee p ps :
  apply_fee_at 0 fee (p :: ps) =
  (fst (Purchase.apply_fee fee p), snd (Purchase.apply_fee fee p) :: ps).
Proof.
  unfold apply_fee_at, getitem, mutated, position. simpl.
  now destruct (Purchase.apply_fee fee p).
Qed.

(** X15. The fee touches one total at most.  When the first purchase is not
    of the country asked for, the ranking is the one computed without any
    fee; and in every case the total of a user other than the user of the
    first purchase is the one computed without the fee. *)
Theorem X15_fee_is_local (lines : list line) (fee : Float.t)
    (country : string) (limit : Z) (p : Purchase.t) (ps : list Purchase.t) :
  parse_purchases lines = Ok (p :: ps) ->
  Float.lt fee Float.zero = false ->
  (Purchase.is_in_country p country = false ->
   leaders_of lines fee country limit =
     Ok (top_users (total_spend_by_user (p :: ps) country) limit)) /\
  (forall user,
     user <> Purchase.user p ->
     Dict.get
       (total_spend_by_user (snd (apply_fee_at 0 fee (p :: ps))) country)
       user Float.zero =
     Dict.get (total_spend_by_user (p :: ps) country) user Float.zero).
Proof.
  intros E Hfee. split.
  - intros Hc. unfold leaders_of. rewrite E. simpl bind.
    rewrite apply_fee_at_0. unfold Purchase.apply_fee. rewrite Hfee. simpl.
    unfold total_spend_by_user. simpl. unfold spend_step at 2 4.
    unfold Purchase.is_in_country in *. simpl. now rewrite Hc.
  - intros user Hne. rewrite apply_fee_at_0.
    unfold Purchase.apply_fee. rewrite Hfee. simpl snd.
    unfold total_spend_by_user. rewrite !spend_fold_get. simpl filter.
    unfold Purchase.is_in_country, Purchase.user. simpl.
    assert (Hu : String.eqb (Purchase._user p) user = false).
    { apply String.eqb_neq. intros Eu. apply Hne. now rewrite <- Eu. }
    rewrite Hu, !andb_false_r. reflexivity.
Qed.

Lemma X15_fee_is_local_witness :
  parse_purchases
    [("carla", "FR", Float.dyadic 25 2); ("bob", "UK", Float.dyadic 5 0)] =
    Ok [Purchase.mk "carla" "FR" (Float.dyadic 25 2);
        Purchase.mk "bob" "UK" (Float.dyadic 5 0)] /\
  Float.lt (Float.dyadic 1 (-2)) Float.zero = false /\
  leaders_of
    [("carla", "FR", Float.dyadic 25 2); ("bob", "UK", Float.dyadic 5 0)]
    (Float.dyadic 1 (-2)) "UK" 3 =
  Ok (top_users
        (total_spend_by_user
           [Purchase.mk "carla" "FR" (Float.dyadic 25 2);
            Purchase.mk "bob" "UK" (Float.dyadic 5 0)] "UK") 3).
Proof.
  assert (E : parse_purchases
    [("carla", "FR", Float.dyadic 25 2); ("bob", "UK", Float.dyadic 5 0)] =
    Ok [Purchase.mk "carla" "FR" (Float.dyadic 25 2);
        Purchase.mk "bob" "UK" (Float.dyadic 5 0)]) by (vm_compute; reflexivity).
  assert (Hfee : Float.lt (Float.dyadic 1 (-2)) Float.zero = false)
    by (vm_compute; reflexivity).
  split; [exact E|]. split; [exact Hfee|].
  apply (proj1 (X15_fee_is_local _ _ "UK" 3 _ _ E Hfee)).
  vm_compute. reflexivity.
Defined.

(** ** [lab3.py]: the maximum of floats *)

Lemma gt_lt (a b : Float.t) : Lab3.gt a b = Float.lt b a.
Proof.
  destruct (Float.is_nan a) eqn:Ha.
  { destruct a; try discriminate. now destruct b. }
  destruct (Float.is_nan b) eqn:Hb.
  { destruct b; try discriminate. now destruct a. }
  pose proof (float_compare_rank a b Ha Hb) as Hab.
  pose proof (float_compare_rank b a Hb Ha) as Hba.
  unfold Lab3.gt, Float.lt, SFltb.
  destruct (float_rank a) as [[a1 a2] a3], (float_rank b) as [[b1 b2] b3].
  destruct (SFcompare a b) as [[]|], (SFcompare b a) as [[]|];
    simpl in *; auto; lia.
Qed.

Lemma gt_nan (a b : Float.t) :
  Float.is_nan a = true \/ Float.is_nan b = true -> Lab3.gt a b = false.
Proof.
  intros [H|H]; [destruct a|destruct b]; try discriminate;
    [now destruct b|now destruct a].
Qed.

Lemma gt_irrefl (a : Float.t) : Lab3.gt a a = false.
Proof. rewrite gt_lt. apply float_lt_irrefl. Qed.

Section FloatNumbers.

Variables a b c : Float.t.
Hypothesis Ha : Float.is_nan a = false.
Hypothesis Hb : Float.is_nan b = false.
Hypothesis Hc : Float.is_nan c = false.

Lemma gt_asym : Lab3.gt a b = true -> Lab3.gt b a = false.
Proof.
  rewrite !gt_lt. intros H.
  apply float_lt_rank in H; auto. apply float_lt_false_rank; auto.
  destruct (float_rank a) as [[a1 a2] a3], (float_rank b) as [[b1 b2] b3].
  simpl in *. lia.
Qed.

Lemma gt_trans :
  Lab3.gt a b = true -> Lab3.gt b c = true -> Lab3.gt a c = true.
Proof.
  rewrite !gt_lt. intros H1 H2.
  apply float_lt_rank in H1; auto. apply float_lt_rank in H2; auto.
  apply float_lt_rank; auto.
  destruct (float_rank a) as [[a1 a2] a3], (float_rank b) as [[b1 b2] b3],
    (float_rank c) as [[c1 c2] c3].
  simpl in *. lia.
Qed.

Lemma gt_cotrans :
  Lab3.gt a b = false -> Lab3.gt b c = false -> Lab3.gt a c = false.
Proof.
  rewrite !gt_lt. intros H1 H2.
  apply float_lt_false_rank in H1; auto. apply float_lt_false_rank in H2; auto.
  apply float_lt_false_rank; auto.
  destruct (float_rank a) as [[a1 a2] a3], (float_rank b) as [[b1 b2] b3],
    (float_rank c) as [[c1 c2] c3].
  simpl in *. lia.
Qed.

Lemma le_not_gt : Float.le a b = negb (Lab3.gt a b).
Proof. rewrite gt_lt. now apply float_le_not_lt. Qed.

Lemma le_refl : Float.le a a = true.
Proof. rewrite float_le_not_lt, float_lt_irrefl by assumption. reflexivity. Qed.

Lemma eq_not_gt :
  Lab3.gt a b = false -> Lab3.gt b a = false -> Float.eq a b = true.
Proof.
  rewrite !gt_lt. intros H1 H2.
  apply float_lt_false_rank in H1; auto. apply float_lt_false_rank in H2; auto.
  apply float_eq_rank; auto.
  destruct (float_rank a) as [[a1 a2] a3], (float_rank b) as [[b1 b2] b3].
  simpl in *. lia.
Qed.

End FloatNumbers.

Lemma eq_refl_number (a : Float.t) :
  Float.is_nan a = false -> Float.eq a a = true.
Proof. intros Ha. apply eq_not_gt; auto using gt_irrefl. Qed.

(** X16. On floats that are numbers [max_2] returns one of its arguments,
    which is at least as large as each of them; swapping the arguments gives
    a result that compares equal. *)
Theorem X16_max_2_numbers (a b : Float.t) :
  Float.is_nan a = false -> Float.is_nan b = false ->
  (Lab3.max_2 a b = a \/ Lab3.max_2 a b = b) /\
  Float.le a (Lab3.max_2 a b) = true /\
  Float.le b (Lab3.max_2 a b) = true /\
  Float.eq (Lab3.max_2 a b) (Lab3.max_2 b a) = true.
Proof.
  intros Ha Hb. unfold Lab3.max_2.
  destruct (Lab3.gt a b) eqn:G1.
  - rewrite (gt_asym a b Ha Hb G1).
    split; [now left|]. split; [now apply le_refl|].
    split; [|now apply eq_refl_number].
    rewrite (le_not_gt b a Hb Ha), (gt_asym a b Ha Hb G1). reflexivity.
  - destruct (Lab3.gt b a) eqn:G2.
    + split; [now right|].
      split; [rewrite (le_not_gt a b Ha Hb), G1; reflexivity|].
      split; [now apply le_refl|now apply eq_refl_number].
    + split; [now left|]. split; [now apply le_refl|].
      split; [rewrite (le_not_gt b a Hb Ha), G2; reflexivity|].
      now apply eq_not_gt.
Qed.

Lemma X16_max_2_numbers_witness :
  Float.is_nan (Float.dyadic 3 0) = false /\
  Float.is_nan (Float.dyadic 5 (-1)) = false /\
  Float.le (Float.dyadic 5 (-1))
    (Lab3.max_2 (Float.dyadic 3 0) (Float.dyadic 5 (-1))) = true.
Proof.
  split; [reflexivity|]. split; [reflexivity|].
  refine (proj1 (proj2 (proj2 (X16_max_2_numbers
            (Float.dyadic 3 0) (Float.dyadic 5 (-1)) _ _)))); reflexivity.
Defined.

(** X17. When either argument is NaN, [max_2] returns its first argument:
    [max_2(x, nan)] is [x] and [max_2(nan, x)] is NaN.  So the result
    depends on the order of the arguments. *)
Theorem X17_max_2_nan (a b : Float.t) :
  Float.is_nan a = true \/ Float.is_nan b = true ->
  Lab3.max_2 a b = a.
Proof.
  intros H. unfold Lab3.max_2.
  rewrite (gt_nan a b H).
  assert (H' : Float.is_nan b = true \/ Float.is_nan a = true) by tauto.
  now rewrite (gt_nan b a H').
Qed.

Lemma X17_max_2_nan_witness :
  (Float.is_nan (Float.dyadic 1 0) = true \/ Float.is_nan Float.nan = true) /\
  Lab3.max_2 (Float.dyadic 1 0) Float.nan = Float.dyadic 1 0 /\
  Lab3.max_2 Float.nan (Float.dyadic 1 0) = Float.nan.
Proof.
  split; [right; reflexivity|]. split.
  - apply X17_max_2_nan. right. reflexivity.
  - apply X17_max_2_nan. left. reflexivity.
Defined.

Lemma max_list_cons (x0 : Float.t) (rest : list Float.t) :
  Lab3.max_list (x0 :: rest) = Ok (fold_left max_step rest x0).
Proof.
  unfold Lab3.max_list. cbn [fold_left]. now rewrite gt_irrefl.
Qed.

Lemma max_step_number (m h : Float.t) :
  Float.is_nan m = false -> Float.is_nan (max_step m h) = false.
Proof.
  intros Hm. unfold max_step.
  destruct (Lab3.gt h m) eqn:G; auto.
  destruct (Float.is_nan h) eqn:Hh; auto.
  rewrite gt_nan in G by auto. discriminate.
Qed.

Lemma max_loop_in (l : list Float.t) (m : Float.t) :
  In (fold_left max_step l m) (m :: l).
Proof.
  revert m. induction l as [|h t IH]; intros m; cbn [fold_left].
  - now left.
  - destruct (IH (max_step m h)) as [E|I].
    + rewrite <- E. unfold max_step. destruct (Lab3.gt h m); simpl; auto.
    + right. now right.
Qed.

Lemma max_loop_number (l : list Float.t) (m : Float.t) :
  Float.is_nan m = false ->
  Float.is_nan (fold_left max_step l m) = false.
Proof.
  revert m. induction l as [|h t IH]; intros m Hm; cbn [fold_left]; auto.
  apply IH. now apply max_step_number.
Qed.

Lemma max_loop_nan (l : list Float.t) (m : Float.t) :
  Float.is_nan m = true -> fold_left max_step l m = m.
Proof.
  intros Hm. induction l as [|h t IH]; cbn [fold_left]; auto.
  unfold max_step at 2. rewrite gt_nan by auto. exact IH.
Qed.

Lemma max_loop_skips_nan (l : list Float.t) (m : Float.t) :
  fold_left max_step l m =
  fold_left max_step (filter (fun v => negb (Float.is_nan v)) l) m.
Proof.
  revert m. induction l as [|h t IH]; intros m; cbn [fold_left filter]; auto.
  destruct (Float.is_nan h) eqn:Hh; cbn [negb fold_left].
  - unfold max_step at 2. rewrite gt_nan by auto. apply IH.
  - apply IH.
Qed.

Lemma le_trans_number (a b c : Float.t) :
  Float.is_nan a = false -> Float.is_nan b = false -> Float.is_nan c = false ->
  Float.le a b = true -> Float.le b c = true -> Float.le a c = true.
Proof.
  intros Ha Hb Hc.
  rewrite (le_not_gt a b Ha Hb), (le_not_gt b c Hb Hc), (le_not_gt a c Ha Hc).
  rewrite !negb_true_iff. now apply gt_cotrans.
Qed.

Lemma max_step_upper (m h : Float.t) :
  Float.is_nan m = false -> Float.is_nan h = false ->
  Float.le m (max_step m h) = true /\ Float.le h (max_step m h) = true.
Proof.
  intros Hm Hh. unfold max_step. destruct (Lab3.gt h m) eqn:G.
  - split; [|now apply le_refl].
    rewrite (le_not_gt m h Hm Hh), (gt_asym h m Hh Hm G). reflexivity.
  - split; [now apply le_refl|].
    rewrite (le_not_gt h m Hh Hm), G. reflexivity.
Qed.

Lemma max_loop_upper (l : list Float.t) (m : Float.t) :
  Float.is_nan m = false ->
  Forall (fun v => Float.is_nan v = false) l ->
  Forall (fun v => Float.le v (fold_left max_step l m) = true) (m :: l).
Proof.
  revert m. induction l as [|h t IH]; intros m Hm Hl; cbn [fold_left].
  - constructor; [|constructor]. now apply le_refl.
  - inversion Hl as [|? ? Hh Ht]; subst.
    pose proof (max_step_number m h Hm) as Hs.
    specialize (IH (max_step m h) Hs Ht).
    inversion IH as [|? ? Hhead Htail]; subst.
    pose proof (max_loop_number t (max_step m h) Hs) as Hr.
    destruct (max_step_upper m h Hm Hh) as [Lm Lh].
    constructor; [|constructor; [|exact Htail]].
    + exact (le_trans_number _ _ _ Hm Hs Hr Lm Hhead).
    + exact (le_trans_number _ _ _ Hh Hs Hr Lh Hhead).
Qed.

(** X18. [max_list] and [max_variable] raise [ValueError], each with its own
    message, exactly on no numbers; on at least one number both return the
    same member of the list, and when no element is NaN every element is at
    most the result. *)
Theorem X18_max_list_spec :
  Lab3.max_list [] = Raise (ValueError "List is empty") /\
  Lab3.max_variable [] = Raise (ValueError "No arguments provided") /\
  forall (x0 : Float.t) (rest : list Float.t),
    exists m,
      Lab3.max_list (x0 :: rest) = Ok m /\
      Lab3.max_variable (x0 :: rest) = Ok m /\
      In m (x0 :: rest) /\
      (Forall (fun v => Float.is_nan v = false) (x0 :: rest) ->
       Forall (fun v => Float.le v m = true) (x0 :: rest)).
Proof.
  split; [reflexivity|]. split; [reflexivity|].
  intros x0 rest. exists (fold_left max_step rest x0).
  split; [apply max_list_cons|].
  split; [unfold Lab3.max_variable; apply max_list_cons|].
  split; [apply max_loop_in|].
  intros Hall. inversion Hall; subst. now apply max_loop_upper.
Qed.

(** X19. What [max_list] does with NaN: when the first element is NaN the
    result is that NaN, whatever follows; a NaN anywhere else is skipped, so
    the result is that of the list without the later NaNs. *)
Theorem X19_max_list_nan (x0 : Float.t) (rest : list Float.t) :
  (Float.is_nan x0 = true -> Lab3.max_list (x0 :: rest) = Ok x0) /\
  Lab3.max_list (x0 :: rest) =
  Lab3.max_list (x0 :: filter (fun v => negb (Float.is_nan v)) rest).
Proof.
  rewrite !max_list_cons. split.
  - intros Hx. now rewrite max_loop_nan.
  - now rewrite max_loop_skips_nan.
Qed.

Lemma max_2_step (a b : Float.t) : Lab3.max_2 a b = max_step a b.
Proof.
  unfold Lab3.max_2, max_step.
  destruct (Lab3.gt a b) eqn:G1, (Lab3.gt b a) eqn:G2; auto.
  destruct (Float.is_nan a) eqn:Ha.
  { rewrite gt_nan in G1 by auto. discriminate. }
  destruct (Float.is_nan b) eqn:Hb.
  { rewrite gt_nan in G1 by auto. discriminate. }
  rewrite (gt_asym a b Ha Hb G1) in G2. discriminate.
Qed.

Lemma max_loop_split (t : list Float.t) (h m : Float.t) :
  Float.is_nan m = false -> Float.is_nan h = false ->
  Forall (fun v => Float.is_nan v = false) t ->
  fold_left max_step (h :: t) m = max_step m (fold_left max_step t h).
Proof.
  revert h m. induction t as [|h2 t IH]; intros h m Hm Hh Ht.
  - reflexivity.
  - inversion Ht as [|? ? Hh2 Ht']; subst.
    change (fold_left max_step (h :: h2 :: t) m)
      with (fold_left max_step (h2 :: t) (max_step m h)).
    pose proof (max_step_number m h Hm) as Hs.
    rewrite (IH h2 (max_step m h) Hs Hh2 Ht').
    rewrite (IH h2 h Hh Hh2 Ht').
    set (n := fold_left max_step t h2).
    assert (Hn : Float.is_nan n = false) by now apply max_loop_number.
    clearbody n. clear IH Ht Ht' Hs.
    unfold max_step.
    destruct (Lab3.gt h m) eqn:G1.
    + destruct (Lab3.gt n h) eqn:G2.
      * now rewrite (gt_trans n h m Hn Hh Hm G2 G1).
      * now rewrite G1.
    + destruct (Lab3.gt n h) eqn:G2.
      * reflexivity.
      * now rewrite G1, (gt_cotrans n h m Hn Hh Hm G2 G1).
Qed.

(** X20. [max_list] and [max_variable] agree with [max_2]: on two values
    they return what [max_2] returns, and on a list without NaN that is cut
    in two non-empty parts they return [max_2] of the maxima of the parts. *)
Theorem X20_max_list_max_2 :
  (forall a b : Float.t,
     Lab3.max_list [a; b] = Ok (Lab3.max_2 a b) /\
     Lab3.max_variable [a; b] = Ok (Lab3.max_2 a b)) /\
  (forall (l1 l2 : list Float.t) (m1 m2 : Float.t),
     Forall (fun v => Float.is_nan v = false) (l1 ++ l2)%list ->
     Lab3.max_list l1 = Ok m1 -> Lab3.max_list l2 = Ok m2 ->
     Lab3.max_list (l1 ++ l2)%list = Ok (Lab3.max_2 m1 m2)).
Proof.
  split.
  - intros a b. unfold Lab3.max_variable. rewrite max_list_cons.
    cbn [fold_left]. now rewrite max_2_step.
  - intros l1 l2 m1 m2 Hall H1 H2.
    destruct l1 as [|x0 r1]; [discriminate|].
    destruct l2 as [|y0 r2]; [discriminate|].
    rewrite max_list_cons in H1, H2. injection H1 as <-. injection H2 as <-.
    change ((x0 :: r1) ++ y0 :: r2)%list with (x0 :: (r1 ++ y0 :: r2))%list.
    rewrite max_list_cons, fold_left_app, max_2_step.
    change ((x0 :: r1) ++ y0 :: r2)%list with (x0 :: (r1 ++ y0 :: r2))%list in Hall.
    inversion Hall as [|? ? Hx0 Hrest]; subst.
    apply Forall_app in Hrest. destruct Hrest as [Hr1 Hr2].
    inversion Hr2 as [|? ? Hy0 Hr2']; subst.
    f_equal. apply max_loop_split; auto. now apply max_loop_number.
Qed.

(** ** [lab1.py] *)



Lemma upper_length (s : string) : String.length (Lab1.upper s) = String.length s.
Proof. induction s as [|c s IH]; simpl; auto. Qed.






